(** * Panel-interview orchestration: a shallow embedding of
    [lesson2/userboard/userboard4-baimuratov.py]

    The development follows the source file top to bottom: the chat
    messages and persona records, the prompt composers, the analysis
    prompts, the transcript export, the interview loop and the batch
    driver.  Python strings are [string]s, Python integers are [Z], lists
    are lists, and the message dictionaries are records whose fields are
    the keys the program reads, each of them optional as in a dictionary.
    The generation backend, the console, the clock and the file system are
    the outside world of the program: a request to the backend, a print on
    the console and the writing of a file may each raise. *)

From Stdlib Require Import ZArith Ascii String DecimalString Sorting.Sorted.
From stdpp Require Import base tactics option list strings gmap.

(** ** Strings *)

(** The line feed that the source writes [\n]. *)
Definition nl : string := String (Ascii.ascii_of_nat 10) EmptyString.

(** [sep.join(parts)]. *)
Fixpoint join (sep : string) (parts : list string) : string :=
  match parts with
  | [] => EmptyString
  | [p] => p
  | p :: rest => p +:+ sep +:+ join sep rest
  end.

(** Concatenation of a list of pieces, for a [+=] inside a [for]. *)
Definition concat_str (parts : list string) : string :=
  foldr String.append EmptyString parts.

(** [needle in haystack] for strings, as a proposition. *)
Definition substring_of (needle haystack : string) : Prop :=
  ∃ before after, haystack = before +:+ needle +:+ after.

(** ** Characters *)

(** A Python string is a sequence of characters.  Here it is the
    [string] of the bytes of its UTF-8 encoding, the encoding of the source
    file and of the files the program reads and writes; strings are taken
    to be well formed.  A character is an ASCII byte, or a lead byte
    followed by its continuation bytes. *)
Definition str1 (c : ascii) : string := String c EmptyString.

Definition is_continuation (c : ascii) : bool :=
  let n := Ascii.nat_of_ascii c in
  (128 <=? n) && (n <? 192).

Definition is_lead (c : ascii) : bool :=
  192 <=? Ascii.nat_of_ascii c.

(** Continuation bytes that no lead byte claims stand as a character of
    their own. *)
Definition stray (pending : string) : list string :=
  match pending with
  | EmptyString => []
  | _ => [pending]
  end.

(** The continuation bytes at the head of a string, and the characters
    after them. *)
Fixpoint split_chars (s : string) : string * list string :=
  match s with
  | EmptyString => (EmptyString, [])
  | String c rest =>
    let '(pending, done) := split_chars rest in
    if is_continuation c then (String c pending, done)
    else if is_lead c then (EmptyString, String c pending :: done)
    else (EmptyString, str1 c :: stray pending ++ done)
  end.

(** The characters of a string, in order. *)
Definition chars (s : string) : list string :=
  let '(pending, done) := split_chars s in
  stray pending ++ done.

(** The ASCII byte of a character that is one. *)
Definition ascii_of (c : string) : option ascii :=
  match c with
  | String b EmptyString =>
    if Ascii.nat_of_ascii b <? 128 then Some b else None
  | _ => None
  end.

(** The code point of a character: the payload bits of the lead byte,
    then six bits per continuation byte. *)
Fixpoint continue_code_point (acc : N) (continuation : string) : N :=
  match continuation with
  | EmptyString => acc
  | String b rest =>
    continue_code_point (acc * 64 + N.land (Ascii.N_of_ascii b) 63) rest
  end.

Definition code_point (c : string) : N :=
  match c with
  | EmptyString => 0
  | String b continuation =>
    let n := Ascii.N_of_ascii b in
    let payload :=
      if (n <? 128)%N then n
      else if (n <? 224)%N then N.land n 31
      else if (n <? 240)%N then N.land n 15
      else N.land n 7 in
    continue_code_point payload continuation
  end.

(** What the Python runtime knows of the characters outside ASCII, by
    code point: [str.isalnum], which with the underscore makes the class
    [\w] of [re]; [str.isspace], which is the class [\s] and what
    [str.strip] removes; and [str.isprintable], which [repr] consults.
    These are tables of the Unicode database, and nothing here depends on
    what they hold. *)
Class Unicode := {
  uni_alnum : N → bool;
  uni_space : N → bool;
  uni_printable : N → bool
}.

(** [repr] of a Python string, as an f-string prints the elements of a
    list: single quotes unless the text has a single quote and no double
    quote; the quote in use and the backslash are escaped, tab, line feed
    and carriage return are written [\t], [\n], [\r], and any other
    character that is not printable is written [\xNN], [\uNNNN] or
    [\UNNNNNNNN] after its code point. *)
Definition single_quote : ascii := Ascii.ascii_of_nat 39.
Definition double_quote : ascii := Ascii.ascii_of_nat 34.
Definition backslash : ascii := Ascii.ascii_of_nat 92.

Fixpoint has_char (c : ascii) (s : string) : bool :=
  match s with
  | EmptyString => false
  | String d rest => Ascii.eqb c d || has_char c rest
  end.

Definition hex_digit (n : nat) : ascii :=
  match String.get n "0123456789abcdef" with
  | Some c => c
  | None => "0"%char
  end.

(** [n] as [width] hexadecimal digits. *)
Fixpoint hex (width : nat) (n : N) : string :=
  match width with
  | O => EmptyString
  | S width' =>
    hex width' (n / 16) +:+ str1 (hex_digit (N.to_nat (n mod 16)))
  end.

Definition escape_code_point (n : N) : string :=
  if (n <? 256)%N then String backslash (String "x" (hex 2 n))
  else if (n <? 65536)%N then String backslash (String "u" (hex 4 n))
  else String backslash (String "U" (hex 8 n)).

Definition repr_ascii (quote c : ascii) : string :=
  let n := Ascii.nat_of_ascii c in
  if Ascii.eqb c quote || Ascii.eqb c backslash then String backslash (str1 c)
  else if n =? 9 then String backslash "t"
  else if n =? 10 then String backslash "n"
  else if n =? 13 then String backslash "r"
  else if (n <? 32) || (n =? 127)
  then escape_code_point (N.of_nat n)
  else str1 c.

Definition repr_char {U : Unicode} (quote : ascii) (c : string) : string :=
  match ascii_of c with
  | Some b => repr_ascii quote b
  | None =>
    if uni_printable (code_point c) then c
    else escape_code_point (code_point c)
  end.

Definition repr_body {U : Unicode} (quote : ascii) (s : string) : string :=
  concat_str (map (repr_char quote) (chars s)).

Definition repr_str {U : Unicode} (s : string) : string :=
  let quote :=
    if has_char single_quote s && negb (has_char double_quote s)
    then double_quote else single_quote in
  String quote (repr_body quote s +:+ str1 quote).

(** [repr] of a list of strings, which [f"{core_questions}"] prints. *)
Definition repr_list {U : Unicode} (l : list string) : string :=
  "[" +:+ join ", " (map repr_str l) +:+ "]".

(** ** Data model *)

(** A chat message or transcript record: a dictionary with the keys
    ["role"], ["content"] and, for persona answers, ["name"]. *)
Record Msg := mkMsg {
  msg_role : option string;
  msg_content : option string;
  msg_name : option string
}.

(** The two kinds of transcript record that [run_interview] appends. *)
Definition question_record (text : string) : Msg :=
  mkMsg (Some "user") (Some text) None.

Definition answer_record (persona_name text : string) : Msg :=
  mkMsg (Some "assistant") (Some text) (Some persona_name).

(** The messages of a prompt. *)
Definition system_msg (text : string) : Msg :=
  mkMsg (Some "system") (Some text) None.

Definition user_msg (text : string) : Msg :=
  mkMsg (Some "user") (Some text) None.

(** A persona row: ["name"], ["description"] and the optional styling
    keys. *)
Record Persona := mkPersona {
  p_name : string;
  p_description : string;
  p_color : option string;
  p_emoji : option string
}.

(** [msg.get(key) == value]. *)
Definition get_is (field : option string) (value : string) : bool :=
  bool_decide (field = Some value).

(** [msg.get(key, default)]. *)
Definition get_or (field : option string) (dflt : string) : string :=
  default dflt field.

(** ** Prompt composer: the persona view *)

Module PersonaView.

(** The state of the scanning loop of [transcript_to_persona_prompt]:
    the responses gathered so far and the flag
    [collecting_current_responses]. *)
Fixpoint scan (persona_name current_question : string)
    (responses : list string) (collecting : bool)
    (transcript : list Msg) : list string :=
  match transcript with
  | [] => responses
  | msg :: rest =>
    if get_is (msg_role msg) "user" && get_is (msg_content msg) current_question
    then (* collecting_current_responses = True; continue *)
      scan persona_name current_question responses true rest
    else
      let responses' :=
        if collecting && get_is (msg_role msg) "assistant"
           && bool_decide (is_Some (msg_name msg))
        then
          if negb (get_is (msg_name msg) persona_name)
          then responses ++
                 [get_or (msg_name msg) "Unknown" +:+ ": "
                  +:+ get_or (msg_content msg) EmptyString]
          else responses
        else responses in
      if collecting && get_is (msg_role msg) "user"
         && negb (get_is (msg_content msg) current_question)
      then (* break *) responses'
      else scan persona_name current_question responses' collecting rest
  end.

Definition responses_for_current_question
    (persona_name current_question : string) (transcript : list Msg)
    : list string :=
  scan persona_name current_question [] false transcript.

(** The prompt text, given the responses that the scan has gathered. *)
Definition persona_prompt_text
    (persona_name persona_description current_question topic : string)
    (responses : list string) : string :=
  let prompt :=
    "You are " +:+ persona_name +:+ "." +:+ nl
    +:+ "Persona details: " +:+ persona_description +:+ nl +:+ nl
    +:+ "Interview topic: " +:+ topic +:+ nl +:+ nl
    +:+ "Current question: " +:+ current_question +:+ nl +:+ nl in
  match responses with
  | [] =>
    prompt
    +:+ "You are the first to answer this question. Please provide your perspective."
    +:+ nl
  | _ =>
    prompt
    +:+ "Other participants have already responded to this question:"
    +:+ nl +:+ nl
    +:+ concat_str (map (λ response, response +:+ nl +:+ nl) responses)
    +:+ "Please provide your answer, and feel free to react to what others have said after giving your own perspective."
    +:+ nl
  end.

Definition transcript_to_persona_prompt
    (persona_name persona_description current_question : string)
    (transcript : list Msg) (topic : string) : list Msg :=
  [system_msg "You are in a group interview.";
   user_msg
     (persona_prompt_text persona_name persona_description current_question
        topic
        (responses_for_current_question persona_name current_question
           transcript))].

(** The kinds of record the scan tells apart, for the statements about
    it: a question record with the current question's text, a question
    record with any other content, and a named answer of another
    persona. *)
Definition is_current_question (current_question : string) (msg : Msg) : bool :=
  get_is (msg_role msg) "user" && get_is (msg_content msg) current_question.

Definition is_other_question (current_question : string) (msg : Msg) : bool :=
  get_is (msg_role msg) "user"
  && negb (get_is (msg_content msg) current_question).

Definition is_peer_answer (persona_name : string) (msg : Msg) : bool :=
  get_is (msg_role msg) "assistant"
  && bool_decide (is_Some (msg_name msg))
  && negb (get_is (msg_name msg) persona_name).

(** The line a collected answer contributes: [f"{name}: {content}"]. *)
Definition render_answer (msg : Msg) : string :=
  get_or (msg_name msg) "Unknown" +:+ ": "
  +:+ get_or (msg_content msg) EmptyString.

End PersonaView.

(** ** Prompt composer: the facilitator view *)

(** A truthy [name]: present and not the empty string. *)
Definition truthy (s : string) : bool :=
  negb (bool_decide (s = EmptyString)).

(** [transcript[-20:] if len(transcript) > 20 else transcript]. *)
Definition recent_msgs (transcript : list Msg) : list Msg :=
  if bool_decide (20 < length transcript)
  then drop (length transcript - 20) transcript
  else transcript.

(** The text one record adds to the facilitator prompt. *)
Definition facilitator_line (msg : Msg) : string :=
  let role := get_or (msg_role msg) EmptyString in
  let name := get_or (msg_name msg) EmptyString in
  let content := get_or (msg_content msg) EmptyString in
  if bool_decide (role = "user")
  then nl +:+ "Facilitator: " +:+ content +:+ nl
  else if bool_decide (role = "assistant")
  then if truthy name
       then name +:+ ": " +:+ content +:+ nl
       else "Assistant: " +:+ content +:+ nl
  else EmptyString.

Definition facilitator_header {U : Unicode}
    (topic : string) (core_questions asked_questions : list string) : string :=
  "You are facilitating an interview about the following idea:" +:+ nl
  +:+ topic +:+ nl
  +:+ nl
  +:+ "Questions to ask:" +:+ nl
  +:+ "- Core questions: " +:+ repr_list core_questions +:+ nl
  +:+ "- Already asked: " +:+ repr_list asked_questions +:+ nl
  +:+ nl
  +:+ "Recent conversation:" +:+ nl.

Definition facilitator_footer : string :=
  nl +:+ "Decide on the next question to ask or if the interview should end.".

Definition facilitator_prompt_text {U : Unicode}
    (topic : string) (transcript : list Msg)
    (core_questions asked_questions : list string) : string :=
  facilitator_header topic core_questions asked_questions
  +:+ concat_str (map facilitator_line (recent_msgs transcript))
  +:+ facilitator_footer.

Definition transcript_to_facilitator_prompt {U : Unicode}
    (topic : string) (transcript : list Msg)
    (core_questions asked_questions : list string) : list Msg :=
  [system_msg "You are a facilitator conducting an interview.";
   user_msg (facilitator_prompt_text topic transcript core_questions
               asked_questions)].

(** ** Analysis prompts *)

(** The text one record adds to the summarizer's document. *)
Definition transcript_line (msg : Msg) : string :=
  let role := get_or (msg_role msg) "unknown" in
  let name := get_or (msg_name msg) EmptyString in
  let content := get_or (msg_content msg) EmptyString in
  if bool_decide (role = "user")
  then "Facilitator: " +:+ content +:+ nl +:+ nl
  else if bool_decide (role = "assistant")
  then if truthy name
       then name +:+ ": " +:+ content +:+ nl +:+ nl
       else "Assistant: " +:+ content +:+ nl +:+ nl
  else EmptyString.

Definition transcript_to_string_message
    (topic : string) (transcript : list Msg) : list Msg :=
  let transcript_text :=
    "Interview Transcript:" +:+ nl +:+ nl
    +:+ concat_str (map transcript_line transcript) in
  [system_msg ("Analyze this interview transcript about: " +:+ topic);
   user_msg transcript_text].

(** One response kept for the sentiment prompt:
    [{"question": current_question, "response": content}], where the
    question is [None] until a question record has been seen. *)
Record Response := mkResponse {
  resp_question : option string;
  resp_response : string
}.

(** [persona_responses]: a dictionary from persona name to the list of
    that persona's responses.  Python dictionaries keep the order in
    which keys were first inserted, and the prompt is printed in that
    order, so it is an association list with distinct keys. *)
Abbreviation PersonaResponses := (list (string * list Response)).

(** [d[key] = value]: replaces the value of a key that exists, in place,
    and appends a new key at the end. *)
Fixpoint dict_set (key : string) (value : list Response)
    (d : PersonaResponses) : PersonaResponses :=
  match d with
  | [] => [(key, value)]
  | (k, v) :: rest =>
    if bool_decide (k = key) then (k, value) :: rest
    else (k, v) :: dict_set key value rest
  end.

(** [key in d]. *)
Definition dict_has (key : string) (d : PersonaResponses) : bool :=
  bool_decide (key ∈ d.*1).

(** [d[key].append(item)], for a key that is in [d]. *)
Fixpoint dict_append (key : string) (item : Response)
    (d : PersonaResponses) : PersonaResponses :=
  match d with
  | [] => []
  | (k, v) :: rest =>
    if bool_decide (k = key) then (k, v ++ [item]) :: rest
    else (k, v) :: dict_append key item rest
  end.

(** The first loop of [create_sentiment_prompt]: one empty list per
    persona name. *)
Definition init_persona_responses (personas : list Persona)
    : PersonaResponses :=
  foldl (λ d p, dict_set (p_name p) [] d) [] personas.

(** The second loop: [current_question] follows the question records,
    and every answer of a known persona is filed under its name. *)
Definition group_step (st : option string * PersonaResponses) (msg : Msg)
    : option string * PersonaResponses :=
  let '(current_question, persona_responses) := st in
  if get_is (msg_role msg) "user"
  then (Some (get_or (msg_content msg) EmptyString), persona_responses)
  else
    match msg_name msg with
    | Some name =>
      if get_is (msg_role msg) "assistant" && dict_has name persona_responses
      then (current_question,
            dict_append name
              (mkResponse current_question
                 (get_or (msg_content msg) EmptyString))
              persona_responses)
      else st
    | None => st
    end.

Definition group_responses (transcript : list Msg) (personas : list Persona)
    : PersonaResponses :=
  (foldl group_step (None, init_persona_responses personas) transcript).2.

(** [f"{x}"] for a value that is a string or [None]. *)
Definition str_of_option (o : option string) : string :=
  default "None" o.

Definition sentiment_response_text (resp : Response) : string :=
  "Question: " +:+ str_of_option (resp_question resp) +:+ nl
  +:+ "Response: " +:+ resp_response resp +:+ nl +:+ nl.

Definition sentiment_section (entry : string * list Response) : string :=
  "## " +:+ entry.1 +:+ nl
  +:+ concat_str (map sentiment_response_text entry.2).

Definition create_sentiment_prompt
    (transcript : list Msg) (personas : list Persona) : list Msg :=
  let persona_responses := group_responses transcript personas in
  let prompt :=
    "Analyze the sentiment and key points from each persona in this interview:"
    +:+ nl +:+ nl
    +:+ concat_str (map sentiment_section persona_responses) in
  [system_msg "You are a sentiment analysis expert."; user_msg prompt].

(** ** Structured outputs *)

Record SummaryReport := mkSummaryReport {
  market_perspective : string;
  go_or_no_go : string;
  rationale : list string
}.

Record PersonaSentiment := mkPersonaSentiment {
  ps_name : string;
  ps_sentiment : string;
  ps_key_points : list string;
  ps_summary : string
}.

Record SentimentAnalysis := mkSentimentAnalysis {
  sa_personas : list PersonaSentiment
}.

(** [FacOut], the facilitator's decision. *)
Record FacOut := mkFacOut {
  next_question : string;
  should_end : bool
}.

(** The result dictionary of [run_interview]. *)
Record InterviewResult := mkInterviewResult {
  res_topic : string;
  res_report : SummaryReport;
  res_sentiment : SentimentAnalysis;
  res_transcript_file : string
}.

(** ** Transcript export *)

Definition markdown_sentiment (persona : PersonaSentiment) : string :=
  "### " +:+ ps_name persona +:+ " - " +:+ ps_sentiment persona +:+ nl +:+ nl
  +:+ "**Summary:** " +:+ ps_summary persona +:+ nl +:+ nl
  +:+ "**Key Points:**" +:+ nl
  +:+ concat_str (map (λ point, "- " +:+ point +:+ nl) (ps_key_points persona))
  +:+ nl.

Definition markdown_line (msg : Msg) : string :=
  let role := get_or (msg_role msg) EmptyString in
  let name := get_or (msg_name msg) EmptyString in
  let content := get_or (msg_content msg) EmptyString in
  if bool_decide (role = "user")
  then "**Facilitator:** " +:+ content +:+ nl +:+ nl
  else if bool_decide (role = "assistant") && truthy name
  then "**" +:+ name +:+ ":** " +:+ content +:+ nl +:+ nl
  else EmptyString.

(** [transcript_to_markdown]; [date] is
    [datetime.now().strftime('%Y-%m-%d')]. *)
Definition transcript_to_markdown (date : string)
    (transcript : list Msg) (topic : string)
    (report : SummaryReport) (sentiment_analysis : SentimentAnalysis)
    : string :=
  "# Interview Transcript: " +:+ topic +:+ nl +:+ nl
  +:+ "**Date:** " +:+ date +:+ nl +:+ nl
  +:+ "**Decision: " +:+ go_or_no_go report +:+ "**" +:+ nl +:+ nl
  +:+ "## Market Perspective" +:+ nl +:+ nl
  +:+ market_perspective report +:+ nl +:+ nl
  +:+ "## Key Rationale" +:+ nl +:+ nl
  +:+ concat_str (map (λ point, "- " +:+ point +:+ nl) (rationale report))
  +:+ nl
  +:+ "## Persona Sentiments" +:+ nl +:+ nl
  +:+ concat_str (map markdown_sentiment (sa_personas sentiment_analysis))
  +:+ "## Full Transcript" +:+ nl +:+ nl
  +:+ concat_str (map markdown_line transcript).

(** The file name of [save_transcript_to_file]:
    [re.sub(r"[^\w\s-]", "", topic).strip().replace(" ", "-")], character
    by character.  The classes are spelled out on ASCII and read from the
    tables outside it. *)
Definition ascii_space (c : ascii) : bool :=
  let n := Ascii.nat_of_ascii c in
  (n =? 32) || ((9 <=? n) && (n <=? 13)) || ((28 <=? n) && (n <=? 31)).

Definition ascii_word (c : ascii) : bool :=
  let n := Ascii.nat_of_ascii c in
  ((48 <=? n) && (n <=? 57)) || ((65 <=? n) && (n <=? 90))
  || ((97 <=? n) && (n <=? 122)) || (n =? 95).

Definition is_space {U : Unicode} (c : string) : bool :=
  match ascii_of c with
  | Some b => ascii_space b
  | None => uni_space (code_point c)
  end.

Definition is_word {U : Unicode} (c : string) : bool :=
  match ascii_of c with
  | Some b => ascii_word b
  | None => uni_alnum (code_point c)
  end.

(** The characters the substitution keeps. *)
Definition kept {U : Unicode} (c : string) : bool :=
  is_word c || is_space c || bool_decide (c = "-").

Definition remove_unsafe {U : Unicode} (cs : list string) : list string :=
  List.filter kept cs.

Fixpoint lstrip {U : Unicode} (cs : list string) : list string :=
  match cs with
  | [] => []
  | c :: rest => if is_space c then lstrip rest else cs
  end.

Fixpoint rstrip {U : Unicode} (cs : list string) : list string :=
  match cs with
  | [] => []
  | c :: rest =>
    match rstrip rest with
    | [] => if is_space c then [] else [c]
    | rest' => c :: rest'
    end
  end.

(** [s.strip()]. *)
Definition strip {U : Unicode} (s : string) : string :=
  concat_str (rstrip (lstrip (chars s))).

Fixpoint spaces_to_hyphens (s : string) : string :=
  match s with
  | EmptyString => EmptyString
  | String c rest =>
    String (if Ascii.eqb c " " then "-"%char else c) (spaces_to_hyphens rest)
  end.

Definition safe_topic {U : Unicode} (topic : string) : string :=
  spaces_to_hyphens
    (concat_str (rstrip (lstrip (remove_unsafe (chars topic))))).

(** [os.path.join("interview_transcripts", filename)]; [date_str] is
    [datetime.now().strftime("%Y%m%d")]. *)
Definition transcript_path {U : Unicode} (date_str topic : string) : string :=
  "interview_transcripts" +:+ "/" +:+ safe_topic topic +:+ "-" +:+ date_str
  +:+ ".md".

(** ** Display styles *)

(** The style of a name: [{"color": color, "emoji": emoji}]. *)
Record Style := mkStyle {
  style_color : string;
  style_emoji : string
}.

Definition base_colors : list string :=
  ["blue"; "green"; "magenta"; "cyan"; "yellow"; "red"; "bright_blue";
   "bright_green"; "bright_magenta"; "bright_cyan"].

Definition default_emoji_cycle : list string :=
  ["💬"; "🗣️"; "👥"; "👤"; "🤔"; "🧐"; "😃"; "🙂"; "😉"; "🤓"].

(** [p.get(key) or fallback]: a missing or empty value gives way. *)
Definition get_or_else (field : option string) (fallback : string) : string :=
  match field with
  | Some value => if truthy value then value else fallback
  | None => fallback
  end.

(** [palette[idx % len(palette)]]. *)
Definition cycle (palette : list string) (idx : nat) : string :=
  default EmptyString (palette !! (idx mod length palette)).

(** The style [_generate_styles] gives the persona at index [idx]. *)
Definition persona_style (idx : nat) (p : Persona) : Style :=
  mkStyle (get_or_else (p_color p) (cycle base_colors idx))
          (get_or_else (p_emoji p) (cycle default_emoji_cycle idx)).

(** The loop over [enumerate(personas)], from index [idx] on. *)
Fixpoint add_styles (idx : nat) (personas : list Persona)
    (styles : gmap string Style) : gmap string Style :=
  match personas with
  | [] => styles
  | p :: rest =>
    add_styles (S idx) rest (<[p_name p := persona_style idx p]> styles)
  end.

Definition facilitator_style : Style := mkStyle "yellow" "🎯".

Definition default_style : Style := mkStyle "white" "💬".

Definition _generate_styles (personas : list Persona) : gmap string Style :=
  let styles := add_styles 0 personas ∅ in
  let styles := <["Facilitator" := facilitator_style]> styles in
  <["default" := default_style]> styles.

(** [styles.get(persona_name, styles.get("default", ...))], the style
    [print_persona_response] draws a response with. *)
Definition resolve_style (styles : gmap string Style) (persona_name : string)
    : Style :=
  default (default (mkStyle "white" "💬") (styles !! "default"))
          (styles !! persona_name).

(** ** Agents *)

(** An agent is what its factory was given: the instruction text is a
    fixed template around these arguments and is read by the generation
    backend only. *)
Inductive Agent :=
| PersonaAgent (name description panel_context : string)
| FacilitatorAgent (topic : string) (core_questions : list string)
    (max_followups : Z)
| SummarizerAgent
| SentimentAgent.

Definition make_persona_agent (name description panel_context : string)
    : Agent :=
  PersonaAgent name description panel_context.

Definition make_facilitator_agent (topic : string)
    (core_questions : list string) (max_followups : Z) : Agent :=
  FacilitatorAgent topic core_questions max_followups.

Definition make_summarizer_agent : Agent := SummarizerAgent.

Definition make_sentiment_agent : Agent := SentimentAgent.

(** The list of the other panelists that [run_interview] gives to each
    persona agent. *)
Definition panel_context (personas : list Persona) (p : Persona) : string :=
  let others :=
    map (λ q, "• " +:+ p_name q +:+ ": " +:+ p_description q)
        (filter (λ q, p_name q ≠ p_name p) personas) in
  match others with
  | [] => "• (none)"
  | _ => join nl others
  end.

Definition make_persona_agents (personas : list Persona) : list Agent :=
  map (λ p, make_persona_agent (p_name p) (p_description p)
              (panel_context personas p))
      personas.

(** ** The outside world *)

(** What the program changes outside itself: the number of generation
    requests made so far, which stands for the passing of time, and the
    files written, by path. *)
Record World := mkWorld {
  calls : nat;
  files : gmap string string
}.

(** What the program asks the console to show, one constructor for each
    place of the source that prints, with the values that place prints:
    the header of an interview (the title, the topic line and the table of
    participants), the start line and its rule, the facilitator's closing
    line, [print_facilitator_question], [print_persona_response], the
    line that announces the analysis, [print_executive_summary], and the
    banner, the progress line, the separator and the summary table of the
    batch driver.  Prints that follow each other with nothing in between
    stand together. *)
Inductive ConsoleOutput :=
| InterviewHeader (topic : string) (personas : list Persona)
| InterviewStart
| FacilitatorThanks
| FacilitatorQuestion (question : string)
| PersonaResponse (persona_name response : string)
    (styles : gmap string Style)
| GeneratingAnalysis
| ExecutiveSummary (report : SummaryReport)
    (sentiment_analysis : SentimentAnalysis) (transcript_file : string)
| BatchHeader (size : nat)
| BatchInterview (i size : nat) (topic : string)
| BatchSeparator
| BatchSummary (results : list InterviewResult).

(** The collaborators the program calls: [Runner.run] for each kind of
    agent, which either raises or returns an output of the agent's output
    type; the console, which shows an output or raises; the file system,
    where writing a file succeeds or raises, leaving the file as it was or
    with some text in it; and the clock.  Each takes the number of
    requests made so far, so a collaborator may answer the same call
    differently from one moment to the next.  [E] is the type of the
    exceptions a call can raise. *)
Record Env (E : Type) := mkEnv {
  gen_facilitator : nat → Agent → list Msg → E + FacOut;
  gen_persona : nat → Agent → list Msg → E + string;
  gen_sentiment : nat → Agent → list Msg → E + SentimentAnalysis;
  gen_summary : nat → Agent → list Msg → E + SummaryReport;
  console_print : nat → ConsoleOutput → option E;
  write_file : nat → string → string → option (E * option string);
  strftime : string → nat → string
}.

Arguments gen_facilitator {E} _ _ _ _.
Arguments gen_persona {E} _ _ _ _.
Arguments gen_sentiment {E} _ _ _ _.
Arguments gen_summary {E} _ _ _ _.
Arguments console_print {E} _ _ _.
Arguments write_file {E} _ _ _ _.
Arguments strftime {E} _ _ _.

(** The result of running a piece of the program from a world: a value,
    an exception that nothing catches, or no answer within the fuel given
    to the [while True] loop.  The first two carry the world they leave. *)
Inductive Outcome (E A : Type) :=
| Ok (a : A) (w : World)
| Raised (e : E) (w : World)
| OutOfFuel.

Arguments Ok {E A} _ _.
Arguments Raised {E A} _ _.
Arguments OutOfFuel {E A}.

Definition M (E A : Type) : Type := World → Outcome E A.

Definition ret {E A} (a : A) : M E A := λ w, Ok a w.

Definition bind {E A B} (m : M E A) (k : A → M E B) : M E B :=
  λ w,
    match m w with
    | Ok a w' => k a w'
    | Raised e w' => Raised e w'
    | OutOfFuel => OutOfFuel
    end.

Declare Scope run_scope.
Delimit Scope run_scope with run.
Notation "x <- m ;; k" := (bind m (λ x, k))
  (at level 100, m at next level, right associativity) : run_scope.
Notation "m ;; k" := (bind m (λ _, k))
  (at level 100, right associativity) : run_scope.

(** [await Runner.run(agent, prompt)] with the generator [gen] of the
    agent's kind. *)
Definition invoke {E A} (gen : nat → Agent → list Msg → E + A)
    (agent : Agent) (prompt : list Msg) : M E A :=
  λ w,
    let w' := mkWorld (S (calls w)) (files w) in
    match gen (calls w) agent prompt with
    | inl e => Raised e w'
    | inr a => Ok a w'
    end.

(** [console.print(...)] and the functions that end in it. *)
Definition console_out {E} (env : Env E) (output : ConsoleOutput) : M E unit :=
  λ w,
    match console_print env (calls w) output with
    | Some e => Raised e w
    | None => Ok tt w
    end.

(** [datetime.now().strftime(fmt)]. *)
Definition now_strftime {E} (env : Env E) (fmt : string) : M E string :=
  λ w, Ok (strftime env fmt (calls w)) w.

(** [with open(filepath, "w") as f: f.write(content)], after
    [os.makedirs]. *)
Definition write_to {E} (env : Env E) (filepath content : string) : M E unit :=
  λ w,
    match write_file env (calls w) filepath content with
    | None => Ok tt (mkWorld (calls w) (<[filepath := content]> (files w)))
    | Some (e, None) => Raised e w
    | Some (e, Some partial) =>
      Raised e (mkWorld (calls w) (<[filepath := partial]> (files w)))
    end.

(** [save_transcript_to_file]: writes the file and returns its path. *)
Definition save_transcript_to_file {E} {U : Unicode} (env : Env E)
    (markdown_content topic : string) : M E string :=
  (date_str <- now_strftime env "%Y%m%d" ;;
   let filepath := transcript_path date_str topic in
   write_to env filepath markdown_content ;;
   ret filepath)%run.

(** ** The interview loop *)

(** The variables of [run_interview] that the loop changes. *)
Record LoopState := mkLoopState {
  transcript : list Msg;
  followups_used : Z;
  asked_questions : list string
}.

Definition initial_state : LoopState := mkLoopState [] 0 [].

(** How one pass of the [while True] body ends: at the first [break]
    (the facilitator ends the interview, nothing is recorded), at the
    second [break] after a full round, or at the end of the body. *)
Inductive Step :=
| Ended
| Stopped (st : LoopState)
| Continue (st : LoopState).

(** An item of the batch configuration. *)
Record Feature := mkFeature {
  f_topic : string;
  f_core_questions : list string
}.

Section Orchestration.

Context {E : Type} {U : Unicode} (env : Env E).

Local Open Scope run_scope.

Section Interview.

Variables (topic : string) (personas : list Persona)
          (core_questions : list string) (max_followups : Z).

Definition persona_styles : gmap string Style := _generate_styles personas.

Definition ask_persona (agent : Agent)
    (persona_name persona_description current_question : string)
    (transcript_so_far : list Msg) : M E string :=
  invoke (gen_persona env) agent
    (PersonaView.transcript_to_persona_prompt persona_name persona_description
       current_question transcript_so_far topic).

(** [for i, agent in enumerate(persona_agents)] with [personas[i]]: the
    two lists have the same length, so the loop runs over their pairs.
    Each answer is appended, then shown, before the next persona is
    asked. *)
Fixpoint ask_personas (panel : list (Agent * Persona)) (question : string)
    (transcript : list Msg) : M E (list Msg) :=
  match panel with
  | [] => ret transcript
  | (agent, persona) :: rest =>
    final_output <- ask_persona agent (p_name persona) (p_description persona)
                      question transcript ;;
    let transcript :=
      transcript ++ [answer_record (p_name persona) final_output] in
    console_out env
      (PersonaResponse (p_name persona) final_output persona_styles) ;;
    ask_personas rest question transcript
  end.

(** The stop test at the end of the loop body. *)
Definition stop_condition (followups_used : Z) (asked_questions : list string)
    : bool :=
  (max_followups <=? followups_used)%Z
  || (Z.of_nat (length core_questions) + max_followups
      <=? Z.of_nat (length asked_questions))%Z.

(** One pass of the body of [while True]. *)
Definition iteration (facilitator : Agent) (persona_agents : list Agent)
    (st : LoopState) : M E Step :=
  fac_out <- invoke (gen_facilitator env) facilitator
               (transcript_to_facilitator_prompt topic (transcript st)
                  core_questions (asked_questions st)) ;;
  if should_end fac_out
  then console_out env FacilitatorThanks ;; ret Ended
  else
    let transcript := transcript st ++ [question_record (next_question fac_out)] in
    let asked_questions := asked_questions st ++ [next_question fac_out] in
    console_out env (FacilitatorQuestion (next_question fac_out)) ;;
    transcript <- ask_personas (zip persona_agents personas)
                    (next_question fac_out) transcript ;;
    let followups_used :=
      if bool_decide (next_question fac_out ∉ core_questions)
      then (followups_used st + 1)%Z
      else followups_used st in
    let st' := mkLoopState transcript followups_used asked_questions in
    if stop_condition followups_used asked_questions
    then ret (Stopped st')
    else ret (Continue st').

(** The [while True] loop.  It returns the states at the end of each
    completed round, oldest first; the last of them holds the variables
    with which the analysis stage starts. *)
Fixpoint interview_loop (fuel : nat) (facilitator : Agent)
    (persona_agents : list Agent) (st : LoopState) : M E (list LoopState) :=
  match fuel with
  | O => λ _, OutOfFuel
  | S fuel' =>
    step <- iteration facilitator persona_agents st ;;
    match step with
    | Ended => ret []
    | Stopped st' => ret [st']
    | Continue st' =>
      rounds <- interview_loop fuel' facilitator persona_agents st' ;;
      ret (st' :: rounds)
    end
  end.

(** The variables after the loop: those of the last completed round, or
    the initial ones when there was none. *)
Definition final_state (st : LoopState) (rounds : list LoopState) : LoopState :=
  default st (last rounds).

(** The final analysis of [run_interview]. *)
Definition final_analysis (summarizer sentiment_agent : Agent)
    (transcript : list Msg) : M E InterviewResult :=
  console_out env GeneratingAnalysis ;;
  sentiment_results <- invoke (gen_sentiment env) sentiment_agent
                         (create_sentiment_prompt transcript personas) ;;
  report <- invoke (gen_summary env) summarizer
              (transcript_to_string_message topic transcript) ;;
  date <- now_strftime env "%Y-%m-%d" ;;
  let markdown_transcript :=
    transcript_to_markdown date transcript topic report sentiment_results in
  saved_filepath <- save_transcript_to_file env markdown_transcript topic ;;
  console_out env (ExecutiveSummary report sentiment_results saved_filepath) ;;
  ret (mkInterviewResult topic report sentiment_results saved_filepath).

(** [run_interview] up to the end of the loop: the header is shown, then
    the loop starts with the agents made for it and the initial
    variables. *)
Definition interview_rounds (fuel : nat) : M E (list LoopState) :=
  let facilitator := make_facilitator_agent topic core_questions max_followups in
  let persona_agents := make_persona_agents personas in
  console_out env (InterviewHeader topic personas) ;;
  console_out env InterviewStart ;;
  interview_loop fuel facilitator persona_agents initial_state.

Definition run_interview (fuel : nat) : M E InterviewResult :=
  let summarizer := make_summarizer_agent in
  let sentiment_agent := make_sentiment_agent in
  rounds <- interview_rounds fuel ;;
  final_analysis summarizer sentiment_agent
    (transcript (final_state initial_state rounds)).

End Interview.

(** ** The batch driver *)

(** The [for] loop of [run_batch_interviews] over
    [enumerate(features, 1)], from the item of number [i] on, with the
    list [results] built so far; [size] is [len(features)]. *)
Fixpoint batch_loop (fuel : nat) (size i : nat) (features : list Feature)
    (personas : list Persona) (max_followups : Z)
    (results : list InterviewResult) : M E (list InterviewResult) :=
  match features with
  | [] => ret results
  | feature :: rest =>
    console_out env (BatchInterview i size (f_topic feature)) ;;
    result <- run_interview (f_topic feature) personas
                (f_core_questions feature) max_followups fuel ;;
    let results := results ++ [result] in
    (if bool_decide (i < size) then console_out env BatchSeparator
     else ret tt) ;;
    batch_loop fuel size (S i) rest personas max_followups results
  end.

Definition run_batch_interviews (fuel : nat) (features : list Feature)
    (personas : list Persona) (max_followups : Z)
    : M E (list InterviewResult) :=
  console_out env (BatchHeader (length features)) ;;
  results <- batch_loop fuel (length features) 1 features personas
               max_followups [] ;;
  console_out env (BatchSummary results) ;;
  ret results.

End Orchestration.

(** ** Notions used in the statements *)

(** The question a record belongs to, as [create_sentiment_prompt]
    tracks it: the content of the latest question record before it. *)
Definition question_after (current_question : option string) (msg : Msg)
    : option string :=
  if get_is (msg_role msg) "user"
  then Some (get_or (msg_content msg) EmptyString)
  else current_question.

Fixpoint annotate (current_question : option string) (transcript : list Msg)
    : list (option string * Msg) :=
  match transcript with
  | [] => []
  | msg :: rest =>
    (question_after current_question msg, msg)
    :: annotate (question_after current_question msg) rest
  end.

(** One round as the loop records it: the question record, then one
    answer record per persona of the roster, named after that persona. *)
Definition round_answers (personas : list Persona) (answers : list string)
    : list Msg :=
  zip_with (λ p text, answer_record (p_name p) text) personas answers.

Definition round_records (personas : list Persona) (question : string)
    (answers : list string) : list Msg :=
  question_record question :: round_answers personas answers.

(** The change one completed round makes to the loop variables. *)
Definition round_step (personas : list Persona) (core_questions : list string)
    (st st' : LoopState) : Prop :=
  ∃ question answers,
    length answers = length personas
    ∧ transcript st' = transcript st ++ round_records personas question answers
    ∧ asked_questions st' = asked_questions st ++ [question]
    ∧ followups_used st' =
        (if bool_decide (question ∉ core_questions)
         then followups_used st + 1 else followups_used st)%Z.

(** The states of successive rounds: each comes from the one before by a
    round, and the stop test failed after every round but the last. *)
Fixpoint rounds_from (personas : list Persona) (core_questions : list string)
    (max_followups : Z) (st : LoopState) (rounds : list LoopState) : Prop :=
  match rounds with
  | [] => True
  | st' :: rest =>
    round_step personas core_questions st st'
    ∧ (rest ≠ [] →
       stop_condition core_questions max_followups (followups_used st')
         (asked_questions st') = false)
    ∧ rounds_from personas core_questions max_followups st' rest
  end.

(** The number of rounds after which the loop must have stopped. *)
Definition round_bound (core_questions : list string) (max_followups : Z)
    : nat :=
  Z.to_nat (Z.of_nat (length core_questions) + max_followups).

(** [needle in haystack], computed. *)
Fixpoint contains (needle haystack : string) : bool :=
  String.prefix needle haystack
  ||
  match haystack with
  | EmptyString => false
  | String _ rest => contains needle rest
  end.

(** The two items of the facilitator view as the specification words
    them: the core questions not asked yet, and the number of follow-ups
    used, which at every call of the loop is the number of asked questions
    that are not core questions. *)
Definition not_yet_asked (core_questions asked_questions : list string)
    : list string :=
  filter (λ q, q ∉ asked_questions) core_questions.

Definition followups_among (core_questions asked_questions : list string)
    : nat :=
  length (filter (λ q, q ∉ core_questions) asked_questions).

(** A result's report is on disk: the file named in the result holds
    the export of that result's report and sentiment analysis. *)
Definition report_on_disk (fs : gmap string string) (result : InterviewResult)
    : Prop :=
  ∃ date transcript,
    fs !! res_transcript_file result
    = Some (transcript_to_markdown date transcript (res_topic result)
              (res_report result) (res_sentiment result)).


(** [f"{n}"] for a count. *)
Definition str_of_nat (n : nat) : string :=
  NilZero.string_of_uint (Nat.to_uint n).

(** ** Scripted collaborators, for the examples *)

Definition empty_world : World := mkWorld 0 ∅.

(** The tables used in the examples, whose texts are ASCII: they take
    every character outside ASCII for a printable letter. *)
Definition letters_only : Unicode :=
  {| uni_alnum := λ _, true; uni_space := λ _, false;
     uni_printable := λ _, true |}.

(** A backend that is up for the first [up] requests and raises
    ["backend unavailable"] from then on.  While it is up, the facilitator
    answers request number [n] with [fac n], personas answer ["ok"], and
    the analysis returns [sentiment] and a fixed report.  The console
    raises what [console] says, and files are written without fault. *)
Definition scripted_report : SummaryReport :=
  mkSummaryReport "niche" "GO" ["a"; "b"; "c"].

Definition scripted_env_on (console : ConsoleOutput → option string)
    (up : nat) (fac : nat → FacOut) (sentiment : SentimentAnalysis)
    : Env string :=
  let guard {A} (n : nat) (a : A) : string + A :=
    if bool_decide (n < up) then inr a else inl "backend unavailable" in
  mkEnv string
    (λ n _ _, guard n (fac n))
    (λ n _ _, guard n "ok")
    (λ n _ _, guard n sentiment)
    (λ n _ _, guard n scripted_report)
    (λ _ output, console output)
    (λ _ _ _, None)
    (λ fmt _, if bool_decide (fmt = "%Y%m%d") then "20250101" else "2025-01-01").

(** The same with a console that shows everything. *)
Definition scripted_env : nat → (nat → FacOut) → SentimentAnalysis → Env string :=
  scripted_env_on (λ _, None).

Definition ask (question : string) : FacOut := mkFacOut question false.

Definition end_now : FacOut := mkFacOut EmptyString true.

(** A facilitator that asks [question] at the first request and ends
    the interview at any later one. *)
Definition fac_once (question : string) (n : nat) : FacOut :=
  if bool_decide (n = 0) then ask question else end_now.

Definition bob_only : SentimentAnalysis :=
  mkSentimentAnalysis [mkPersonaSentiment "Bob" "NEUTRAL" ["x"; "y"] "s"].

Definition alice : Persona := mkPersona "Alice" "runner" None None.

Definition bob : Persona := mkPersona "Bob" "desk worker" None None.

(** The backend is up; the facilitator asks a question of its own at
    every request. *)
Definition env_followups : Env string :=
  scripted_env 100 (λ _, ask "Bonus") (mkSentimentAnalysis []).

(** The backend is up; the facilitator asks ["Q1"] and then ends. *)
Definition env_one_round : Env string := scripted_env 100 (fac_once "Q1") bob_only.

(** The backend is up; the facilitator ends at once. *)
Definition env_ends : Env string := scripted_env 100 (λ _, end_now) bob_only.



(** The backend is up and the facilitator ends at once, but the console
    refuses the executive summary. *)
Definition env_summary_refused : Env string :=
  scripted_env_on
    (λ output,
       match output with
       | ExecutiveSummary _ _ _ => Some "markup error"
       | _ => None
       end)
    100 (λ _, end_now) bob_only.

(** The variables after a round on ["Q1"] with Alice and Bob. *)
Definition round_one : LoopState :=
  mkLoopState
    [question_record "Q1"; answer_record "Alice" "ok"; answer_record "Bob" "ok"]
    0 ["Q1"].

(** * The rest of the program *)

(** ** Persona utilities *)

(** The exceptions of the two loaders. *)
Inductive LoadError :=
| FileNotFoundError (message : string)
| JSONDecodeError
| ValueError (message : string)
| AttributeError.

(** A row of the persona file as [csv.DictReader] yields it: a
    dictionary from column name to cell, where the cell of a column that
    the line of the file is too short to reach is [None]. *)
Abbreviation Row := (gmap string (option string)).

Declare Scope load_scope.
Delimit Scope load_scope with load.
Notation "x <- m ;; k" :=
  (match m with inl e => inl e | inr x => k end)
  (at level 100, m at next level, right associativity, only parsing)
  : load_scope.

(** [row.get(key, "").strip()]: a cell that is [None] has no [strip]. *)
Definition cell {U : Unicode} (row : Row) (key : string) : LoadError + string :=
  match default (Some EmptyString) (row !! key) with
  | Some value => inr (strip value)
  | None => inl AttributeError
  end.

(** [parts.append(part)] under a condition. *)
Definition append_if (cond : bool) (part : string) (parts : list string)
    : list string :=
  if cond then parts ++ [part] else parts.

(** The list [parts] of [_build_description] when it is joined. *)
Definition description_parts {U : Unicode} (row : Row)
    : LoadError + list string :=
  (let parts := [] in
   age <- cell row "age" ;;
   role <- cell row "role" ;;
   let parts :=
     if truthy age && truthy role
     then parts ++ [age +:+ "-year‑old " +:+ role]
     else if truthy role then parts ++ [role]
     else parts in
   context <- cell row "context" ;;
   let parts := append_if (truthy context) context parts in
   goals <- cell row "goals" ;;
   let parts := append_if (truthy goals) ("Goals: " +:+ goals) parts in
   pain_points <- cell row "pain_points" ;;
   let parts :=
     append_if (truthy pain_points) ("Pain points: " +:+ pain_points) parts in
   tech <- cell row "tech_savvy" ;;
   let parts := append_if (truthy tech) ("Tech‑savvy: " +:+ tech) parts in
   explicit_desc <- cell row "description" ;;
   let parts := append_if (truthy explicit_desc) explicit_desc parts in
   inr parts)%load.

Definition _build_description {U : Unicode} (row : Row) : LoadError + string :=
  (parts <- description_parts row ;;
   inr (join "; " parts))%load.

(** The optional styling keys of a persona:
    [value = row.get(key); if value: persona_dict[key] = value.strip()]. *)
Definition styling {U : Unicode} (row : Row) (key : string) : option string :=
  match row !! key with
  | Some (Some value) => if truthy value then Some (strip value) else None
  | _ => None
  end.

(** One pass of the loop over the rows: a row without a name is
    ignored, any other row adds a persona. *)
Definition add_row {U : Unicode} (personas : list Persona) (row : Row)
    : LoadError + list Persona :=
  (name <- cell row "name" ;;
   if negb (truthy name) then inr personas
   else
     description <- _build_description row ;;
     inr (personas ++
          [mkPersona name description (styling row "color")
             (styling row "emoji")]))%load.

(** [for row in reader], from the list [personas] built so far. *)
Fixpoint add_rows {U : Unicode} (personas : list Persona) (rows : list Row)
    : LoadError + list Persona :=
  match rows with
  | [] => inr personas
  | row :: rest =>
    (personas <- add_row personas row ;;
     add_rows personas rest)%load
  end.

(** [load_personas_from_csv]: [csv_files] gives, for each path that
    exists, the rows that the reader yields. *)
Definition load_personas_from_csv {U : Unicode}
    (csv_files : gmap string (list Row)) (path : string)
    : LoadError + list Persona :=
  match csv_files !! path with
  | None => inl (FileNotFoundError ("Persona file not found: " +:+ path))
  | Some rows => add_rows [] rows
  end.

(** ** Interview configuration *)

(** What [json.load] returns.  A finite float is [mantissa * 2 ^
    exponent]; an object is the list of its members, with distinct keys. *)
#[warnings="-register-all"]
Inductive Json :=
| JNull
| JBool (b : bool)
| JInt (z : Z)
| JFloat (mantissa exponent : Z)
| JStr (s : string)
| JList (items : list Json)
| JDict (fields : list (string * Json)).

(** [d.get(key)], with [None] for Python's [None]. *)
Fixpoint jlookup (key : string) (fields : list (string * Json)) : option Json :=
  match fields with
  | [] => None
  | (k, v) :: rest => if bool_decide (k = key) then Some v else jlookup key rest
  end.

(** [key in d]. *)
Definition jhas (key : string) (fields : list (string * Json)) : bool :=
  bool_decide (is_Some (jlookup key fields)).

(** The truth value of a JSON value in an [if]. *)
Definition json_truthy (v : Json) : bool :=
  match v with
  | JNull => false
  | JBool b => b
  | JInt z => negb (z =? 0)%Z
  | JFloat mantissa _ => negb (mantissa =? 0)%Z
  | JStr s => truthy s
  | JList items => negb (bool_decide (items = []))
  | JDict fields => negb (bool_decide (fields = []))
  end.

(** [isinstance(v, list)] and [isinstance(v, dict)]. *)
Definition is_jlist (v : Json) : bool :=
  match v with JList _ => true | _ => false end.

Definition is_jdict (v : Json) : bool :=
  match v with JDict _ => true | _ => false end.

(** The check of one feature, at index [i] of the list. *)
Definition check_feature (i : nat) (feature : Json) : option LoadError :=
  match feature with
  | JDict fields =>
    if negb (jhas "topic" fields) || negb (jhas "core_questions" fields)
    then Some (ValueError
                 ("Feature " +:+ str_of_nat i +:+ " missing required fields"))
    else if negb (is_jlist (default JNull (jlookup "core_questions" fields)))
    then Some (ValueError
                 ("Feature " +:+ str_of_nat i
                  +:+ " core_questions must be an array"))
    else None
  | _ =>
    Some (ValueError ("Feature " +:+ str_of_nat i +:+ " must be an object"))
  end.

(** [for i, feature in enumerate(data["features"])]: the first feature
    that fails its check raises. *)
Fixpoint check_features (i : nat) (features : list Json) : option LoadError :=
  match features with
  | [] => None
  | feature :: rest =>
    match check_feature i feature with
    | Some e => Some e
    | None => check_features (S i) rest
    end
  end.

(** [load_interview_config]: [json_files] gives, for each path that
    exists, what [json.load] makes of the file, [None] when it raises. *)
Definition load_interview_config (json_files : gmap string (option Json))
    (path : string) : LoadError + Json :=
  match json_files !! path with
  | None =>
    inl (FileNotFoundError ("Interview config file not found: " +:+ path))
  | Some None => inl JSONDecodeError
  | Some (Some data) =>
    match data with
    | JDict fields =>
      if jhas "features" fields
      then
        match default JNull (jlookup "features" fields) with
        | JList features =>
          match check_features 0 features with
          | Some e => inl e
          | None =>
            if negb (jhas "max_followups" fields)
            then inr (JDict (fields ++ [("max_followups", JInt 2)]))
            else inr data
          end
        | _ => inl (ValueError "In batch mode, 'features' must be an array")
        end
      else
        let topic := default JNull (jlookup "topic" fields) in
        let core_qs := default JNull (jlookup "core_questions" fields) in
        let max_followups := default (JInt 2) (jlookup "max_followups" fields) in
        if negb (json_truthy topic) || negb (is_jlist core_qs)
        then inl (ValueError
                    "Interview config missing required fields 'topic' or 'core_questions'")
        else inr (JDict [("topic", topic); ("core_questions", core_qs);
                         ("max_followups", max_followups)])
    | _ => inl (ValueError "Interview config must be a JSON object")
    end
  end.

(** A feature that [run_batch_interviews] can read: an object with a
    topic and a list of core questions. *)
Definition readable_feature (feature : Json) : Prop :=
  ∃ fields topic core_questions,
    feature = JDict fields
    ∧ jlookup "topic" fields = Some topic
    ∧ jlookup "core_questions" fields = Some (JList core_questions).

(** ** Sample inputs of the loaders *)

Definition legacy_config : Json :=
  JDict [("topic", JStr "Bottle"); ("core_questions", JList [JStr "Q1"])].

Definition loaded_legacy_config : Json :=
  JDict [("topic", JStr "Bottle"); ("core_questions", JList [JStr "Q1"]);
         ("max_followups", JInt 2)].

Definition good_feature : Json :=
  JDict [("topic", JStr "T1"); ("core_questions", JList [JStr "Q1"])].

Definition broken_batch_config : Json :=
  JDict [("features", JList [good_feature; JStr "oops"; JNull])].

(** ** More notions for the statements *)

(** The texts of the question records of a transcript, in order. *)
Definition question_texts (transcript : list Msg) : list string :=
  omap (λ msg,
          if get_is (msg_role msg) "user"
          then Some (get_or (msg_content msg) EmptyString) else None)
       transcript.

(** The generation requests an outcome has made since [w]. *)
Definition requests_since {E A} (w : World) (outcome : Outcome E A) : nat :=
  match outcome with
  | Ok _ w' => calls w' - calls w
  | Raised _ w' => calls w' - calls w
  | OutOfFuel => 0
  end.

(** Every byte of a string passes a test. *)
Fixpoint all_chars (test : ascii → bool) (s : string) : bool :=
  match s with
  | EmptyString => true
  | String c rest => test c && all_chars test rest
  end.

(** The bytes a file name made by [save_transcript_to_file] can have
    before the date: those of the characters outside ASCII, the ASCII
    letters and digits, the underscore, the hyphen, and the ASCII blanks
    other than the space. *)
Definition file_name_char (c : ascii) : bool :=
  (128 <=? Ascii.nat_of_ascii c)
  || ascii_word c || Ascii.eqb c "-"
  || (ascii_space c && negb (Ascii.eqb c " ")).

(** A character is an ASCII byte, or is made of bytes from 128 on. *)
Definition char_shape (c : string) : Prop :=
  (∃ b, c = str1 b ∧ Ascii.nat_of_ascii b < 128)
  ∨ all_chars (λ b, 128 <=? Ascii.nat_of_ascii b) c = true.


(** Text that [repr] prints as it stands, between single quotes:
    printable ASCII without quotes and backslashes. *)
Definition plain_char (c : ascii) : bool :=
  let n := Ascii.nat_of_ascii c in
  (32 <=? n) && (n <? 127)
  && negb (Ascii.eqb c single_quote) && negb (Ascii.eqb c double_quote)
  && negb (Ascii.eqb c backslash).

Definition plain (s : string) : bool := all_chars plain_char s.

(** * Properties *)

(** ** The definitions on small inputs *)

Section SmallInputs.

Local Existing Instance letters_only.

Example repr_list_quotes :
  repr_list ["Q1"; "it's"]
  = "['Q1', " +:+ str1 double_quote +:+ "it's" +:+ str1 double_quote +:+ "]".
Proof. reflexivity. Qed.

(** A character that is not printable is written by its code point. *)
Example repr_list_escapes :
  repr_list (U := {| uni_alnum := λ _, false; uni_space := λ _, true;
                     uni_printable := λ _, false |})
    [String (Ascii.ascii_of_nat 194) (String (Ascii.ascii_of_nat 160) "Q")]
  = "['" +:+ str1 backslash +:+ "xa0Q']".
Proof. reflexivity. Qed.

Example transcript_path_sanitised :
  transcript_path "20250101" "  Smart bottle: v2!  "
  = "interview_transcripts/Smart-bottle-v2-20250101.md".
Proof. reflexivity. Qed.

(** A hyphen outside ASCII is neither a letter nor a blank, and is
    dropped like any other punctuation. *)
Example transcript_path_drops_punctuation :
  transcript_path (U := {| uni_alnum := λ _, false; uni_space := λ _, false;
                           uni_printable := λ _, true |})
    "20250101" "Tech‑savvy users"
  = "interview_transcripts/Techsavvy-users-20250101.md".
Proof. reflexivity. Qed.

Example panel_context_of_alice :
  panel_context [alice; bob] alice = "• Bob: desk worker"
  ∧ panel_context [alice] alice = "• (none)".
Proof. split; reflexivity. Qed.

(** The second persona of a round is shown the answer of the first. *)
Example persona_prompt_second_in_round :
  PersonaView.transcript_to_persona_prompt "Bob" "desk worker" "Q1"
    [question_record "Q1"; answer_record "Alice" "ok"] "T"
  = [system_msg "You are in a group interview.";
     user_msg
       ("You are Bob." +:+ nl
        +:+ "Persona details: desk worker" +:+ nl +:+ nl
        +:+ "Interview topic: T" +:+ nl +:+ nl
        +:+ "Current question: Q1" +:+ nl +:+ nl
        +:+ "Other participants have already responded to this question:"
        +:+ nl +:+ nl
        +:+ "Alice: ok" +:+ nl +:+ nl
        +:+ "Please provide your answer, and feel free to react to what others have said after giving your own perspective."
        +:+ nl)].
Proof. reflexivity. Qed.

Example sentiment_prompt_one_round :
  create_sentiment_prompt (transcript round_one) [alice; bob]
  = [system_msg "You are a sentiment analysis expert.";
     user_msg
       ("Analyze the sentiment and key points from each persona in this interview:"
        +:+ nl +:+ nl
        +:+ "## Alice" +:+ nl
        +:+ "Question: Q1" +:+ nl +:+ "Response: ok" +:+ nl +:+ nl
        +:+ "## Bob" +:+ nl
        +:+ "Question: Q1" +:+ nl +:+ "Response: ok" +:+ nl +:+ nl)].
Proof. reflexivity. Qed.

(** Roster Alice and Bob, one core question, no follow-up allowed: one
    round, three records, and the loop stops. *)
Example one_core_question_no_followups :
  interview_rounds env_one_round "T" [alice; bob] ["Q1"] 0 1 empty_world
  = Ok [round_one] (mkWorld 3 ∅).
Proof. vm_compute. reflexivity. Qed.

(** When the console refuses the executive summary, the interview
    raises with its transcript file already written. *)
Example summary_refused_after_save :
  run_interview env_summary_refused "T" [alice; bob] ["Q1"] 0 1 empty_world
  = Raised "markup error"
      (mkWorld 3
         {[ "interview_transcripts/T-20250101.md" :=
              transcript_to_markdown "2025-01-01" [] "T" scripted_report
                bob_only ]}).
Proof. vm_compute. reflexivity. Qed.

End SmallInputs.

(** ** The monad *)

Section MonadFacts.

Context {E : Type}.

Lemma bind_Ok_inv {A B} (m : M E A) (k : A → M E B) w b w' :
  bind m k w = Ok b w' → ∃ a w1, m w = Ok a w1 ∧ k a w1 = Ok b w'.
Proof.
  unfold bind. destruct (m w) as [a w1|e w1|] eqn:Hm; [|done..].
  intros Hk. by exists a, w1.
Qed.

Lemma bind_Raised_inv {A B} (m : M E A) (k : A → M E B) w e w' :
  bind m k w = Raised e w' →
  m w = Raised e w' ∨ ∃ a w1, m w = Ok a w1 ∧ k a w1 = Raised e w'.
Proof.
  unfold bind. destruct (m w) as [a w1|e1 w1|] eqn:Hm; [| |done].
  - intros Hk. right. by exists a, w1.
  - intros [= -> ->]. by left.
Qed.

Lemma bind_OutOfFuel_inv {A B} (m : M E A) (k : A → M E B) w :
  bind m k w = OutOfFuel →
  m w = OutOfFuel ∨ ∃ a w1, m w = Ok a w1 ∧ k a w1 = OutOfFuel.
Proof.
  unfold bind. destruct (m w) as [a w1|e1 w1|] eqn:Hm; [|done|].
  - intros Hk. right. by exists a, w1.
  - by left.
Qed.

Lemma bind_Ok {A B} (m : M E A) (k : A → M E B) w a w1 :
  m w = Ok a w1 → bind m k w = k a w1.
Proof. unfold bind. by intros ->. Qed.

Lemma invoke_Ok_inv {A} (gen : nat → Agent → list Msg → E + A)
    agent prompt w a w' :
  invoke gen agent prompt w = Ok a w' →
  gen (calls w) agent prompt = inr a ∧ w' = mkWorld (S (calls w)) (files w).
Proof. unfold invoke. destruct (gen _ _ _); naive_solver. Qed.

Lemma invoke_Raised_inv {A} (gen : nat → Agent → list Msg → E + A)
    agent prompt w e w' :
  invoke gen agent prompt w = Raised e w' →
  gen (calls w) agent prompt = inl e ∧ w' = mkWorld (S (calls w)) (files w).
Proof. unfold invoke. destruct (gen _ _ _); naive_solver. Qed.

Lemma invoke_not_OutOfFuel {A} (gen : nat → Agent → list Msg → E + A)
    agent prompt w :
  invoke gen agent prompt w ≠ OutOfFuel.
Proof. unfold invoke. by destruct (gen _ _ _). Qed.

Lemma invoke_inr {A} (gen : nat → Agent → list Msg → E + A)
    agent prompt w a :
  gen (calls w) agent prompt = inr a →
  invoke gen agent prompt w = Ok a (mkWorld (S (calls w)) (files w)).
Proof. unfold invoke. by intros ->. Qed.

(** The console changes nothing in the world. *)
Lemma console_out_Ok_inv (env : Env E) output w u w' :
  console_out env output w = Ok u w' →
  console_print env (calls w) output = None ∧ w' = w.
Proof. unfold console_out. destruct (console_print _ _ _); naive_solver. Qed.

Lemma console_out_Raised_inv (env : Env E) output w e w' :
  console_out env output w = Raised e w' →
  console_print env (calls w) output = Some e ∧ w' = w.
Proof. unfold console_out. destruct (console_print _ _ _); naive_solver. Qed.

Lemma console_out_not_OutOfFuel (env : Env E) output w :
  console_out env output w ≠ OutOfFuel.
Proof. unfold console_out. by destruct (console_print _ _ _). Qed.

Lemma console_out_None (env : Env E) output w :
  console_print env (calls w) output = None →
  console_out env output w = Ok tt w.
Proof. unfold console_out. by intros ->. Qed.

(** Writing a file touches no other path and makes no request. *)
Lemma write_to_Ok_inv (env : Env E) filepath content w u w' :
  write_to env filepath content w = Ok u w' →
  write_file env (calls w) filepath content = None
  ∧ w' = mkWorld (calls w) (<[filepath := content]> (files w)).
Proof.
  unfold write_to.
  destruct (write_file _ _ _ _) as [[e [partial|]]|]; naive_solver.
Qed.

Lemma write_to_Raised_inv (env : Env E) filepath content w e w' :
  write_to env filepath content w = Raised e w' →
  calls w' = calls w
  ∧ ∀ path, path ≠ filepath → files w' !! path = files w !! path.
Proof.
  unfold write_to.
  destruct (write_file _ _ _ _) as [[e1 [partial|]]|]; [| |done].
  - intros [= <- <-]. simpl. split; [done|].
    intros path Hpath. by rewrite lookup_insert_ne.
  - by intros [= <- <-].
Qed.

Lemma write_to_not_OutOfFuel (env : Env E) filepath content w :
  write_to env filepath content w ≠ OutOfFuel.
Proof.
  unfold write_to. by destruct (write_file _ _ _ _) as [[e [partial|]]|].
Qed.

End MonadFacts.

(** ** One round *)

Section RoundFacts.

Context {E : Type} {U : Unicode} (env : Env E).
Variables (topic : string) (personas : list Persona)
          (core_questions : list string) (max_followups : Z).

(** Asking a panel appends one answer per member, in order, named after
    the persona of each pair, makes one request per member and touches no
    file. *)
Lemma ask_personas_Ok panel question t w t' w' :
  ask_personas env topic personas panel question t w = Ok t' w' →
  ∃ answers,
    length answers = length panel
    ∧ t' = t ++ zip_with (λ p text, answer_record (p_name p) text)
                  (panel.*2) answers
    ∧ files w' = files w.
Proof.
  revert t w. induction panel as [|[agent persona] panel IH]; intros t w; simpl.
  - intros [= <- <-]. exists []. by rewrite app_nil_r.
  - intros H. apply bind_Ok_inv in H as (out & w1 & Hask & H).
    apply invoke_Ok_inv in Hask as [_ ->].
    apply bind_Ok_inv in H as (u & w2 & Hprint & H).
    apply console_out_Ok_inv in Hprint as [_ ->].
    apply IH in H as (answers & Hlen & -> & Hfiles).
    exists (out :: answers). simpl. split; [by rewrite Hlen|].
    split; [by rewrite <- app_assoc|done].
Qed.

Lemma ask_personas_Raised panel question t w e w' :
  ask_personas env topic personas panel question t w = Raised e w' →
  files w' = files w.
Proof.
  revert t w. induction panel as [|[agent persona] panel IH]; intros t w; simpl.
  - done.
  - intros H. apply bind_Raised_inv in H as [H|(out & w1 & Hask & H)].
    + by apply invoke_Raised_inv in H as [_ ->].
    + apply invoke_Ok_inv in Hask as [_ ->].
      apply bind_Raised_inv in H as [H|(u & w2 & Hprint & H)].
      * by apply console_out_Raised_inv in H as [_ ->].
      * apply console_out_Ok_inv in Hprint as [_ ->]. by apply IH in H.
Qed.

Lemma ask_personas_not_OutOfFuel panel question t w :
  ask_personas env topic personas panel question t w ≠ OutOfFuel.
Proof.
  revert t w. induction panel as [|[agent persona] panel IH]; intros t w; simpl.
  - done.
  - intros H. apply bind_OutOfFuel_inv in H as [H|(out & w1 & _ & H)].
    + by apply invoke_not_OutOfFuel in H.
    + apply bind_OutOfFuel_inv in H as [H|(u & w2 & _ & H)].
      * by apply console_out_not_OutOfFuel in H.
      * by apply IH in H.
Qed.

(** When the console shows what it is given and every persona request
    succeeds, so does the round of answers. *)
Lemma ask_personas_total panel question t w :
  (∀ n output, console_print env n output = None) →
  (∀ n agent prompt, ∃ text, gen_persona env n agent prompt = inr text) →
  ∃ t' w', ask_personas env topic personas panel question t w = Ok t' w'.
Proof.
  intros Hconsole Hgen. revert t w.
  induction panel as [|[agent persona] panel IH]; intros t w; simpl.
  - by eexists _, _.
  - unfold ask_persona.
    destruct (Hgen (calls w) agent
                (PersonaView.transcript_to_persona_prompt (p_name persona)
                   (p_description persona) question t topic)) as [text Htext].
    erewrite bind_Ok; [|by apply invoke_inr].
    erewrite bind_Ok; [|by apply console_out_None].
    apply IH.
Qed.

Lemma make_persona_agents_length :
  length (make_persona_agents personas) = length personas.
Proof. unfold make_persona_agents. by rewrite length_map. Qed.

(** What one pass of the loop body does, when it returns. *)
Lemma iteration_Ok facilitator persona_agents st w step w' :
  length persona_agents = length personas →
  iteration env topic personas core_questions max_followups facilitator
    persona_agents st w = Ok step w' →
  files w' = files w
  ∧ match step with
    | Ended => True
    | Stopped st' =>
      round_step personas core_questions st st'
      ∧ stop_condition core_questions max_followups (followups_used st')
          (asked_questions st') = true
    | Continue st' =>
      round_step personas core_questions st st'
      ∧ stop_condition core_questions max_followups (followups_used st')
          (asked_questions st') = false
    end.
Proof.
  intros Hlen H. unfold iteration in H.
  apply bind_Ok_inv in H as (fac_out & w1 & Hfac & H).
  apply invoke_Ok_inv in Hfac as [_ ->].
  destruct (should_end fac_out).
  { apply bind_Ok_inv in H as (u & w2 & Hprint & H).
    apply console_out_Ok_inv in Hprint as [_ ->].
    injection H as <- <-. done. }
  apply bind_Ok_inv in H as (u & w2 & Hprint & H).
  apply console_out_Ok_inv in Hprint as [_ ->].
  apply bind_Ok_inv in H as (t' & w3 & Hask & H).
  apply ask_personas_Ok in Hask as (answers & Hanswers & -> & Hfiles).
  rewrite snd_zip in * by lia. rewrite length_zip in Hanswers.
  assert (Hstep : ∀ st',
    st' = mkLoopState
            ((transcript st ++ [question_record (next_question fac_out)]) ++
             zip_with (λ p text, answer_record (p_name p) text) personas answers)
            (if bool_decide (next_question fac_out ∉ core_questions)
             then (followups_used st + 1)%Z else followups_used st)
            (asked_questions st ++ [next_question fac_out]) →
    round_step personas core_questions st st').
  { intros st' ->. exists (next_question fac_out), answers. simpl.
    split; [lia|]. split; [|done].
    unfold round_records, round_answers. by rewrite <- app_assoc. }
  destruct (stop_condition _ _ _ _) eqn:Hstop;
    injection H as <- <-; (split; [done|]); split; by auto.
Qed.

Lemma iteration_Raised facilitator persona_agents st w e w' :
  iteration env topic personas core_questions max_followups facilitator
    persona_agents st w = Raised e w' →
  files w' = files w.
Proof.
  intros H. unfold iteration in H.
  apply bind_Raised_inv in H as [H|(fac_out & w1 & Hfac & H)].
  { by apply invoke_Raised_inv in H as [_ ->]. }
  apply invoke_Ok_inv in Hfac as [_ ->].
  destruct (should_end fac_out).
  { apply bind_Raised_inv in H as [H|(u & w2 & _ & H)]; [|done].
    by apply console_out_Raised_inv in H as [_ ->]. }
  apply bind_Raised_inv in H as [H|(u & w2 & Hprint & H)].
  { by apply console_out_Raised_inv in H as [_ ->]. }
  apply console_out_Ok_inv in Hprint as [_ ->].
  apply bind_Raised_inv in H as [H|(t' & w3 & Hask & H)].
  { by apply ask_personas_Raised in H. }
  by destruct (stop_condition _ _ _ _).
Qed.

Lemma iteration_not_OutOfFuel facilitator persona_agents st w :
  iteration env topic personas core_questions max_followups facilitator
    persona_agents st w ≠ OutOfFuel.
Proof.
  intros H. unfold iteration in H.
  apply bind_OutOfFuel_inv in H as [H|(fac_out & w1 & _ & H)].
  { by apply invoke_not_OutOfFuel in H. }
  destruct (should_end fac_out).
  { apply bind_OutOfFuel_inv in H as [H|(u & w2 & _ & H)]; [|done].
    by apply console_out_not_OutOfFuel in H. }
  apply bind_OutOfFuel_inv in H as [H|(u & w2 & _ & H)].
  { by apply console_out_not_OutOfFuel in H. }
  apply bind_OutOfFuel_inv in H as [H|(t' & w3 & _ & H)].
  { by apply ask_personas_not_OutOfFuel in H. }
  by destruct (stop_condition _ _ _ _).
Qed.

End RoundFacts.

(** ** The loop *)

Section LoopFacts.

Context {E : Type} {U : Unicode} (env : Env E).
Variables (topic : string) (personas : list Persona)
          (core_questions : list string) (max_followups : Z).
Variables (facilitator : Agent) (persona_agents : list Agent).
Hypothesis persona_agents_length : length persona_agents = length personas.

Local Abbreviation loop fuel st :=
  (interview_loop env topic personas core_questions max_followups fuel
     facilitator persona_agents st).

(** The states the loop returns are those of successive rounds. *)
Lemma interview_loop_rounds fuel st w rounds w' :
  loop fuel st w = Ok rounds w' →
  rounds_from personas core_questions max_followups st rounds
  ∧ files w' = files w.
Proof.
  revert st w rounds w'. induction fuel as [|fuel IH]; intros st w rounds w';
    simpl; [done|].
  intros H. apply bind_Ok_inv in H as (step & w1 & Hit & H).
  apply iteration_Ok in Hit as [Hfiles Hstep]; [|done].
  destruct step as [|st'|st'].
  - injection H as <- <-. done.
  - injection H as <- <-. destruct Hstep as [Hstep _]. simpl. done.
  - apply bind_Ok_inv in H as (rest & w2 & Hloop & H).
    injection H as <- <-. apply IH in Hloop as [Hrest Hfiles'].
    destruct Hstep as [Hstep Hstop]. simpl. split; [|congruence]. done.
Qed.

Lemma interview_loop_Raised fuel st w e w' :
  loop fuel st w = Raised e w' → files w' = files w.
Proof.
  revert st w. induction fuel as [|fuel IH]; intros st w; simpl; [done|].
  intros H. apply bind_Raised_inv in H as [H|(step & w1 & Hit & H)].
  { by apply iteration_Raised in H. }
  apply iteration_Ok in Hit as [Hfiles _]; [|done].
  destruct step as [|st'|st']; [done..|].
  apply bind_Raised_inv in H as [H|(rest & w2 & _ & H)]; [|done].
  apply IH in H. congruence.
Qed.

(** The loop stops by itself: a pass that continues has asked fewer
    than [len(core_questions) + max_followups] questions, and every pass
    asks one more. *)
Lemma interview_loop_terminates fuel st w :
  1 ≤ fuel →
  round_bound core_questions max_followups - length (asked_questions st) ≤ fuel →
  loop fuel st w ≠ OutOfFuel.
Proof.
  revert st w. induction fuel as [|fuel IH]; intros st w Hpos Hfuel; [lia|].
  simpl. intros H.
  apply bind_OutOfFuel_inv in H as [H|(step & w1 & Hit & H)].
  { by apply iteration_not_OutOfFuel in H. }
  apply iteration_Ok in Hit as [_ Hstep]; [|done].
  destruct step as [|st'|st']; [done..|].
  destruct Hstep as [(q & answers & _ & _ & Hasked & _) Hstop].
  apply bind_OutOfFuel_inv in H as [H|(rest & w2 & _ & H)]; [|done].
  unfold stop_condition in Hstop. apply orb_false_iff in Hstop as [_ Hstop].
  apply Z.leb_gt in Hstop. rewrite Hasked, length_app in Hstop. simpl in Hstop.
  unfold round_bound in Hfuel.
  apply IH in H; [done|lia|].
  rewrite Hasked, length_app. unfold round_bound. simpl. lia.
Qed.

End LoopFacts.

(** ** Chains of rounds *)

Section RoundChains.

Variables (personas : list Persona) (core_questions : list string)
          (max_followups : Z).

(** The counters along the rounds, from the chain of rounds alone. *)
Lemma rounds_from_bounds st rounds :
  (0 ≤ max_followups)%Z →
  length (asked_questions st) < round_bound core_questions max_followups →
  (followups_used st < Z.max 1 max_followups)%Z →
  rounds_from personas core_questions max_followups st rounds →
  length rounds ≤
    round_bound core_questions max_followups - length (asked_questions st)
  ∧ Sorted Z.le (map followups_used (st :: rounds))
  ∧ Forall (λ s, (followups_used s ≤ Z.max 1 max_followups)%Z
                 ∧ length (asked_questions s) ≤
                     round_bound core_questions max_followups) rounds.
Proof.
  intros Hmax. revert st.
  induction rounds as [|st' rest IH]; intros st Hasked Hused Hrounds.
  { simpl. split; [lia|]. split; [|done]. repeat constructor. }
  destruct Hrounds as ((q & answers & _ & _ & Hasked' & Hused') & Hstop & Hrest).
  assert (followups_used st ≤ followups_used st' ≤ followups_used st + 1)%Z
    as Hmono.
  { rewrite Hused'. case_bool_decide; lia. }
  assert (length (asked_questions st') = S (length (asked_questions st)))
    as Hlen.
  { rewrite Hasked', length_app. simpl. lia. }
  destruct rest as [|st'' rest].
  { simpl. split; [lia|]. split.
    - repeat constructor. lia.
    - constructor; [|done]. split; lia. }
  specialize (Hstop ltac:(done)). unfold stop_condition in Hstop.
  apply orb_false_iff in Hstop as [Hstop1 Hstop2].
  apply Z.leb_gt in Hstop1, Hstop2.
  destruct (IH st') as (Hcount & Hsorted & Hall); [| |done|].
  { unfold round_bound. lia. }
  { lia. }
  split; [simpl in *; lia|]. split.
  - simpl. constructor; [done|]. constructor. lia.
  - constructor; [|done]. split; lia.
Qed.

(** The transcript after the rounds: the rounds' records, one block per
    round. *)
Lemma rounds_from_transcript st rounds :
  rounds_from personas core_questions max_followups st rounds →
  ∃ blocks : list (string * list string),
    length blocks = length rounds
    ∧ Forall (λ b, length b.2 = length personas) blocks
    ∧ transcript (final_state st rounds) =
        transcript st ++ mjoin (map (λ b, round_records personas b.1 b.2) blocks).
Proof.
  revert st. induction rounds as [|st' rest IH]; intros st Hrounds.
  { exists []. simpl. by rewrite app_nil_r. }
  destruct Hrounds as ((q & answers & Hanswers & Ht & _ & _) & _ & Hrest).
  apply IH in Hrest as (blocks & Hlen & Hall & Hfinal).
  exists ((q, answers) :: blocks). simpl. split; [by rewrite Hlen|].
  split; [by constructor|].
  assert (final_state st (st' :: rest) = final_state st' rest) as ->.
  { unfold final_state. rewrite last_cons. by destruct (last rest). }
  rewrite Hfinal, Ht. by rewrite <- app_assoc.
Qed.

End RoundChains.

(** ** The interview loop: counters, termination and transcript shape *)

Section InterviewClaims.

Context {E : Type} {U : Unicode} (env : Env E).
Variables (topic : string) (personas : list Persona)
          (core_questions : list string) (max_followups : Z).

Local Abbreviation rounds_of fuel w :=
  (interview_rounds env topic personas core_questions max_followups fuel w).
Local Abbreviation loop_of fuel w :=
  (interview_loop env topic personas core_questions max_followups fuel
     (make_facilitator_agent topic core_questions max_followups)
     (make_persona_agents personas) initial_state w).

(** Up to the end of the loop, [run_interview] is its loop, unless the
    console refuses the header. *)
Lemma interview_rounds_cases fuel w :
  (∃ e, (console_print env (calls w) (InterviewHeader topic personas) = Some e
         ∨ console_print env (calls w) InterviewStart = Some e)
        ∧ rounds_of fuel w = Raised e w)
  ∨ (console_print env (calls w) (InterviewHeader topic personas) = None
     ∧ console_print env (calls w) InterviewStart = None
     ∧ rounds_of fuel w = loop_of fuel w).
Proof.
  unfold interview_rounds, bind, console_out.
  destruct (console_print env (calls w) (InterviewHeader topic personas));
    [left; eexists; by eauto|].
  destruct (console_print env (calls w) InterviewStart);
    [left; eexists; by eauto|].
  by right.
Qed.

Lemma interview_rounds_Ok_inv fuel w rounds w' :
  rounds_of fuel w = Ok rounds w' → loop_of fuel w = Ok rounds w'.
Proof.
  destruct (interview_rounds_cases fuel w) as [(e & _ & He)|(_ & _ & ->)]; [|done].
  by rewrite He.
Qed.

Lemma interview_rounds_from fuel w rounds w' :
  rounds_of fuel w = Ok rounds w' →
  rounds_from personas core_questions max_followups initial_state rounds
  ∧ files w' = files w.
Proof.
  intros H. apply interview_rounds_Ok_inv in H. revert H.
  apply interview_loop_rounds. apply make_persona_agents_length.
Qed.

Lemma interview_rounds_Raised fuel w e w' :
  rounds_of fuel w = Raised e w' → files w' = files w.
Proof.
  destruct (interview_rounds_cases fuel w) as [(e1 & _ & He)|(_ & _ & ->)].
  - rewrite He. by intros [= _ <-].
  - apply interview_loop_Raised. apply make_persona_agents_length.
Qed.

Lemma interview_rounds_not_OutOfFuel fuel w :
  loop_of fuel w ≠ OutOfFuel → rounds_of fuel w ≠ OutOfFuel.
Proof.
  destruct (interview_rounds_cases fuel w) as [(e & _ & He)|(_ & _ & ->)]; [|done].
  by rewrite He.
Qed.

(** X26: With a non-empty list of core questions and [max_followups >= 0],
    whatever the facilitator and the personas answer, the loop ends within
    [len(core_questions) + max_followups] passes (it never needs more fuel
    than that); over the rounds of a completed run [followups_used] never
    decreases and stays at most [max(1, max_followups)], hence at most
    [max_followups] when that is at least one, and [len(asked_questions)]
    stays at most [len(core_questions) + max_followups]. *)
Theorem interview_loop_bounded fuel w :
  core_questions ≠ [] →
  (0 ≤ max_followups)%Z →
  length core_questions + Z.to_nat max_followups ≤ fuel →
  rounds_of fuel w ≠ OutOfFuel
  ∧ ∀ rounds w',
      rounds_of fuel w = Ok rounds w' →
      length rounds ≤ length core_questions + Z.to_nat max_followups
      ∧ StronglySorted Z.le (map followups_used (initial_state :: rounds))
      ∧ Forall (λ st,
                  (followups_used st ≤ Z.max 1 max_followups)%Z
                  ∧ length (asked_questions st) ≤
                      length core_questions + Z.to_nat max_followups)
               (initial_state :: rounds).
Proof.
  intros Hcore Hmax Hfuel.
  assert (round_bound core_questions max_followups
          = length core_questions + Z.to_nat max_followups) as Hbound.
  { unfold round_bound. lia. }
  assert (0 < length core_questions) as Hlen.
  { destruct core_questions; [done|simpl; lia]. }
  split.
  - apply interview_rounds_not_OutOfFuel. apply interview_loop_terminates.
    + apply make_persona_agents_length.
    + lia.
    + simpl. lia.
  - intros rounds w' Hrun. apply interview_rounds_from in Hrun as [Hrounds _].
    apply rounds_from_bounds in Hrounds as (Hcount & Hsorted & Hall);
      [|done|simpl; lia|simpl; lia].
    rewrite Hbound in *. simpl in Hcount. split; [lia|]. split.
    + apply Sorted_StronglySorted; [|done]. intros x y z. apply Z.le_trans.
    + constructor; [simpl; lia|done].
Qed.

(** C4: when the loop has ended, the transcript holds, for every
    completed round, one question record and one answer record per persona
    of the roster. *)
Theorem transcript_length_after_termination fuel w rounds w' :
  rounds_of fuel w = Ok rounds w' →
  length (transcript (final_state initial_state rounds))
  = length rounds * (1 + length personas).
Proof.
  intros Hrun. apply interview_rounds_from in Hrun as [Hrounds _].
  apply rounds_from_transcript in Hrounds as (blocks & <- & Hall & ->).
  simpl. clear -Hall. induction Hall as [|[q answers] blocks Hb _ IH]; [done|].
  simpl in *. rewrite length_app, IH. unfold round_answers.
  rewrite length_zip_with. lia.
Qed.

(** C5: the transcript of a completed run is made of one block per
    round, a question record followed by one answer record per roster
    entry; the names on the answers of a block are the roster's names in
    roster order, so that with distinct roster names nobody answers a
    round's question twice. *)
Theorem answers_in_roster_order fuel w rounds w' :
  rounds_of fuel w = Ok rounds w' →
  ∃ blocks : list (string * list string),
    length blocks = length rounds
    ∧ transcript (final_state initial_state rounds)
      = mjoin (map (λ b, question_record b.1 :: round_answers personas b.2)
                 blocks)
    ∧ Forall (λ b,
                length (round_answers personas b.2) = length personas
                ∧ map msg_name (round_answers personas b.2)
                  = map (λ p, Some (p_name p)) personas
                ∧ (NoDup (map p_name personas) →
                   NoDup (map msg_name (round_answers personas b.2))))
             blocks.
Proof.
  intros Hrun. apply interview_rounds_from in Hrun as [Hrounds _].
  apply rounds_from_transcript in Hrounds as (blocks & Hlen & Hall & Ht).
  exists blocks. split; [done|]. split; [done|].
  eapply Forall_impl; [exact Hall|]. intros [q answers] Hb. simpl in *.
  assert (map msg_name (round_answers personas answers)
          = map (λ p, Some (p_name p)) personas) as Hnames.
  { unfold round_answers. clear -Hb. revert answers Hb.
    induction personas as [|p ps IH]; intros [|a answers] Hb; simpl in *;
      try done. f_equal. apply IH. lia. }
  split; [|split; [done|]].
  - unfold round_answers. rewrite length_zip_with. lia.
  - rewrite Hnames. intros Hnodup.
    replace (map (λ p, Some (p_name p)) personas)
      with (Some <$> (map p_name personas)).
    + apply NoDup_fmap; [|done]. by intros ?? [= ->].
    + by rewrite <- list_fmap_compose.
Qed.

End InterviewClaims.

(** ** Degenerate runs *)

Section DegenerateRuns.

Context {E : Type} {U : Unicode} (env : Env E).
Variables (topic : string) (personas : list Persona)
          (core_questions : list string).

(** C7: when the facilitator's first answer has [should_end] set, the
    loop ends at once: no round, no record, the transcript stays empty.
    The analysis stage then runs over the empty transcript: provided the
    console shows what the run prints, the sentiment and the summary
    requests are answered and the file can be written, [run_interview]
    returns the outputs of the two requests and writes the export of the
    empty transcript. *)
Theorem immediate_end_runs_analysis max_followups fuel w fac_out sentiment report :
  console_print env (calls w) (InterviewHeader topic personas) = None →
  console_print env (calls w) InterviewStart = None →
  gen_facilitator env (calls w)
    (make_facilitator_agent topic core_questions max_followups)
    (transcript_to_facilitator_prompt topic [] core_questions []) = inr fac_out →
  should_end fac_out = true →
  console_print env (1 + calls w) FacilitatorThanks = None →
  console_print env (1 + calls w) GeneratingAnalysis = None →
  gen_sentiment env (1 + calls w) make_sentiment_agent
    (create_sentiment_prompt [] personas) = inr sentiment →
  gen_summary env (2 + calls w) make_summarizer_agent
    (transcript_to_string_message topic []) = inr report →
  write_file env (3 + calls w)
    (transcript_path (strftime env "%Y%m%d" (3 + calls w)) topic)
    (transcript_to_markdown (strftime env "%Y-%m-%d" (3 + calls w)) [] topic
       report sentiment) = None →
  console_print env (3 + calls w)
    (ExecutiveSummary report sentiment
       (transcript_path (strftime env "%Y%m%d" (3 + calls w)) topic)) = None →
  interview_rounds env topic personas core_questions max_followups (S fuel) w
  = Ok [] (mkWorld (1 + calls w) (files w))
  ∧ transcript (final_state initial_state []) = []
  ∧ run_interview env topic personas core_questions max_followups (S fuel) w
    = Ok (mkInterviewResult topic report sentiment
            (transcript_path (strftime env "%Y%m%d" (3 + calls w)) topic))
         (mkWorld (3 + calls w)
            (<[transcript_path (strftime env "%Y%m%d" (3 + calls w)) topic :=
                 transcript_to_markdown
                   (strftime env "%Y-%m-%d" (3 + calls w)) [] topic report
                   sentiment]> (files w))).
Proof.
  intros Hheader Hstart Hfac Hend Hthanks Hgenerating Hsent Hsum Hwrite Hsummary.
  assert (interview_rounds env topic personas core_questions max_followups
            (S fuel) w = Ok [] (mkWorld (1 + calls w) (files w))) as Hloop.
  { unfold interview_rounds.
    erewrite bind_Ok; [|by apply console_out_None].
    erewrite bind_Ok; [|by apply console_out_None].
    simpl. unfold iteration.
    erewrite bind_Ok; [|erewrite bind_Ok; [|by apply invoke_inr];
                        rewrite Hend; erewrite bind_Ok;
                        [|by apply console_out_None]; done].
    done. }
  split; [done|]. split; [done|].
  unfold run_interview. erewrite bind_Ok; [|exact Hloop].
  unfold final_analysis, final_state. simpl.
  erewrite bind_Ok; [|by apply console_out_None].
  erewrite bind_Ok; [|by apply invoke_inr].
  erewrite bind_Ok; [|by apply invoke_inr].
  unfold bind, now_strftime, save_transcript_to_file, bind, write_to,
    console_out, ret. simpl in *.
  rewrite Hwrite. simpl. by rewrite Hsummary.
Qed.

(** C9: with [max_followups = 0], once the facilitator has asked a
    first question instead of ending, the loop makes exactly one round and
    stops, whatever the core questions are: it never runs out of fuel, a
    run that returns has exactly one round, the one of that question, and
    it does return when the console shows what it is given and the
    personas' requests are answered. *)
Theorem zero_followups_single_round fuel w fac_out :
  gen_facilitator env (calls w)
    (make_facilitator_agent topic core_questions 0)
    (transcript_to_facilitator_prompt topic [] core_questions []) = inr fac_out →
  should_end fac_out = false →
  interview_rounds env topic personas core_questions 0 (S fuel) w ≠ OutOfFuel
  ∧ (∀ rounds w',
       interview_rounds env topic personas core_questions 0 (S fuel) w
       = Ok rounds w' →
       ∃ st answers,
         rounds = [st]
         ∧ length answers = length personas
         ∧ asked_questions st = [next_question fac_out]
         ∧ transcript st
           = round_records personas (next_question fac_out) answers)
  ∧ ((∀ n output, console_print env n output = None) →
     (∀ n agent prompt, ∃ text, gen_persona env n agent prompt = inr text) →
     ∃ st w',
       interview_rounds env topic personas core_questions 0 (S fuel) w
       = Ok [st] w').
Proof.
  intros Hfac Hend.
  pose proof (make_persona_agents_length personas) as Hlen.
  assert (∀ fu asked, (0 ≤ fu)%Z →
            stop_condition core_questions 0 fu asked = true) as Hstop.
  { intros fu asked Hfu. unfold stop_condition.
    apply orb_true_iff. left. by apply Z.leb_le. }
  assert (∀ out : Outcome E (list LoopState),
    interview_rounds env topic personas core_questions 0 (S fuel) w = out →
    match out with
    | Ok rounds w' =>
      ∃ st answers, rounds = [st]
        ∧ length answers = length personas
        ∧ asked_questions st = [next_question fac_out]
        ∧ transcript st = round_records personas (next_question fac_out) answers
    | Raised _ _ =>
      ¬ ((∀ n output, console_print env n output = None)
         ∧ ∀ n agent prompt, ∃ text, gen_persona env n agent prompt = inr text)
    | OutOfFuel => False
    end) as Hcases.
  { intros out <-.
    destruct (interview_rounds_cases env topic personas core_questions 0
                (S fuel) w) as [(e & Hrefused & ->)|(_ & _ & ->)].
    { intros [Hconsole _]. rewrite !Hconsole in Hrefused. by destruct Hrefused. }
    simpl. unfold iteration, bind at 1 2, invoke. simpl. rewrite Hfac, Hend.
    set (w1 := mkWorld (S (calls w)) (files w)).
    unfold bind at 1, console_out.
    destruct (console_print env (calls w1)
                (FacilitatorQuestion (next_question fac_out))) as [e|] eqn:Hq.
    { intros [Hconsole _]. by rewrite Hconsole in Hq. }
    set (t0 := [question_record (next_question fac_out)]).
    unfold bind.
    destruct (ask_personas env topic personas
                (zip (make_persona_agents personas) personas)
                (next_question fac_out) t0 w1) as [t' w2|e w2|] eqn:Hask.
    - rewrite Hstop by (case_bool_decide; simpl; lia). simpl.
      apply ask_personas_Ok in Hask as (answers & Hanswers & -> & _).
      rewrite snd_zip by lia. rewrite length_zip in Hanswers.
      eexists _, answers. split; [done|]. split; [lia|]. simpl. done.
    - intros [Hconsole Hgen].
      destruct (ask_personas_total env topic personas
                  (zip (make_persona_agents personas) personas)
                  (next_question fac_out) t0 w1 Hconsole Hgen) as (? & ? & Heq).
      congruence.
    - by apply ask_personas_not_OutOfFuel in Hask. }
  specialize (Hcases _ eq_refl).
  split; [|split].
  - intros Hout. by rewrite Hout in Hcases.
  - intros rounds w' Hrun. by rewrite Hrun in Hcases.
  - intros Hconsole Hgen.
    destruct (interview_rounds env topic personas core_questions 0 (S fuel) w)
      as [rounds w'|e w'|]; [|by destruct Hcases|done].
    destruct Hcases as (st & _ & -> & _). by exists st, w'.
Qed.

End DegenerateRuns.

(** ** Strings *)

Lemma append_assoc (s1 s2 s3 : string) :
  (s1 +:+ s2) +:+ s3 = s1 +:+ s2 +:+ s3.
Proof.
  induction s1 as [|c s1 IH]; [done|].
  change (String c ((s1 +:+ s2) +:+ s3) = String c (s1 +:+ s2 +:+ s3)).
  by rewrite IH.
Qed.

Lemma prefix_append (s1 s2 : string) : String.prefix s1 (s1 +:+ s2) = true.
Proof.
  induction s1 as [|c s1 IH]; [by destruct s2|].
  change (String.prefix (String c s1) (String c (s1 +:+ s2)) = true).
  simpl. by destruct (ascii_dec c c).
Qed.

Lemma contains_prefix (needle haystack : string) :
  String.prefix needle haystack = true → contains needle haystack = true.
Proof. destruct haystack; simpl; intros ->; done. Qed.

(** The computed test finds every occurrence. *)
Lemma contains_complete (needle haystack : string) :
  substring_of needle haystack → contains needle haystack = true.
Proof.
  intros (before & after & ->).
  induction before as [|c before IH].
  - change (contains needle (needle +:+ after) = true).
    apply contains_prefix, prefix_append.
  - change (contains needle (String c (before +:+ needle +:+ after)) = true).
    simpl. rewrite IH. apply orb_true_r.
Qed.

Lemma substring_of_middle (before needle after : string) :
  substring_of needle (before +:+ needle +:+ after).
Proof. by exists before, after. Qed.

Lemma substring_of_append_l (needle s1 s2 : string) :
  substring_of needle s1 → substring_of needle (s1 +:+ s2).
Proof.
  intros (before & after & ->). exists before, (after +:+ s2).
  by rewrite !append_assoc.
Qed.

(** ** The persona view *)

Section PersonaViewFacts.

Import PersonaView.

Variables (persona_name current_question : string).

Local Abbreviation not_current :=
  (λ msg, is_current_question current_question msg = false).
Local Abbreviation not_other :=
  (λ msg, is_other_question current_question msg = false).
Local Abbreviation peer :=
  (λ msg, is_peer_answer persona_name msg = true).
Local Abbreviation scan_from acc collecting t :=
  (scan persona_name current_question acc collecting t).

Lemma role_user_not_assistant msg :
  get_is (msg_role msg) "user" = true →
  get_is (msg_role msg) "assistant" = false.
Proof.
  unfold get_is. intros Hu. apply bool_decide_eq_true in Hu.
  apply bool_decide_eq_false. by rewrite Hu.
Qed.

(** A question record with the current text switches collecting on and
    adds nothing. *)
Lemma scan_current acc collecting q rest :
  is_current_question current_question q = true →
  scan_from acc collecting (q :: rest) = scan_from acc true rest.
Proof. unfold is_current_question. simpl. by intros ->. Qed.

(** Before the first such record nothing is gathered. *)
Lemma scan_skip acc pre rest :
  Forall not_current pre →
  scan_from acc false (pre ++ rest) = scan_from acc false rest.
Proof.
  induction 1 as [|msg pre Hmsg _ IH]; [done|].
  unfold is_current_question in Hmsg. simpl. by rewrite Hmsg.
Qed.

(** While collecting, a record that is not a different question adds its
    line when it is a named answer of another persona. *)
Lemma scan_collect_one acc msg rest :
  not_other msg →
  scan_from acc true (msg :: rest)
  = scan_from (acc ++ map render_answer (filter peer [msg])) true rest.
Proof.
  unfold is_other_question. intros Hmsg. simpl.
  rewrite filter_cons, filter_nil. unfold is_peer_answer, render_answer.
  destruct (get_is (msg_role msg) "user") eqn:Huser; simpl in Hmsg.
  - apply negb_false_iff in Hmsg. rewrite Hmsg. simpl.
    rewrite (role_user_not_assistant _ Huser). simpl.
    by rewrite app_nil_r.
  - simpl.
    destruct (get_is (msg_role msg) "assistant"); simpl;
      [|by rewrite app_nil_r].
    destruct (bool_decide (is_Some (msg_name msg))); simpl;
      [|by rewrite app_nil_r].
    destruct (get_is (msg_name msg) persona_name); simpl; [|done].
    by rewrite app_nil_r.
Qed.

Lemma scan_collect acc seg rest :
  Forall not_other seg →
  scan_from acc true (seg ++ rest)
  = scan_from (acc ++ map render_answer (filter peer seg)) true rest.
Proof.
  intros Hseg. revert acc.
  induction Hseg as [|msg seg Hmsg _ IH]; intros acc.
  { simpl. by rewrite app_nil_r. }
  rewrite <- app_comm_cons, scan_collect_one by done.
  rewrite IH, (filter_app _ [msg] seg), map_app. by rewrite app_assoc.
Qed.

(** While collecting, a different question ends the scan. *)
Lemma scan_break acc msg rest :
  is_other_question current_question msg = true →
  scan_from acc true (msg :: rest) = acc.
Proof.
  unfold is_other_question. intros Hmsg.
  apply andb_true_iff in Hmsg as [Huser Hcontent]. simpl.
  rewrite Huser, Hcontent, (role_user_not_assistant _ Huser).
  apply negb_true_iff in Hcontent. rewrite Hcontent. done.
Qed.

(** Every transcript splits at the first question record with the
    current text, if there is one. *)
Lemma split_at_first_current t :
  Forall not_current t
  ∨ ∃ pre q rest,
      t = pre ++ q :: rest ∧ Forall not_current pre
      ∧ is_current_question current_question q = true.
Proof.
  induction t as [|msg t IH]; [by left|].
  destruct (is_current_question current_question msg) eqn:Hmsg.
  { right. exists [], msg, t. done. }
  destruct IH as [Hall|(pre & q & rest & -> & Hpre & Hq)].
  - left. by constructor.
  - right. exists (msg :: pre), q, rest. split; [done|]. split; [|done].
    by constructor.
Qed.

(** Every list of records splits at its first different question. *)
Lemma split_at_first_other t :
  ∃ seg rest,
    t = seg ++ rest ∧ Forall not_other seg
    ∧ (rest = [] ∨ ∃ msg later,
         rest = msg :: later
         ∧ is_other_question current_question msg = true).
Proof.
  induction t as [|msg t (seg & rest & -> & Hseg & Hrest)].
  { exists [], []. split; [done|]. split; [done|]. by left. }
  destruct (is_other_question current_question msg) eqn:Hmsg.
  - exists [], (msg :: seg ++ rest). split; [done|]. split; [done|].
    right. by exists msg, (seg ++ rest).
  - exists (msg :: seg), rest. split; [done|]. split; [by constructor|done].
Qed.

(** The scan, on a transcript split at the first occurrence of the
    current question and at the next different question. *)
Lemma responses_of_split pre q seg rest :
  Forall not_current pre →
  is_current_question current_question q = true →
  Forall not_other seg →
  (rest = [] ∨ ∃ msg later,
     rest = msg :: later ∧ is_other_question current_question msg = true) →
  responses_for_current_question persona_name current_question
    (pre ++ q :: seg ++ rest)
  = map render_answer (filter peer seg).
Proof.
  intros Hpre Hq Hseg Hrest. unfold responses_for_current_question.
  rewrite scan_skip, scan_current, scan_collect by done. simpl.
  destruct Hrest as [->|(msg & later & -> & Hmsg)]; [done|].
  by rewrite scan_break.
Qed.

Lemma responses_without_current t :
  Forall not_current t →
  responses_for_current_question persona_name current_question t = [].
Proof.
  intros Ht. unfold responses_for_current_question.
  rewrite <- (app_nil_r t). by rewrite scan_skip.
Qed.

(** The questions that records belong to. *)
Lemma annotate_app c l1 l2 :
  annotate c (l1 ++ l2) = annotate c l1 ++ annotate (foldl question_after c l1) l2.
Proof.
  revert c. induction l1 as [|msg l1 IH]; intros c; [done|].
  simpl. by rewrite IH.
Qed.

Lemma question_after_current c q :
  is_current_question current_question q = true →
  question_after c q = Some current_question.
Proof.
  unfold is_current_question, question_after. intros Hq.
  apply andb_true_iff in Hq as [-> Hcontent].
  unfold get_is in Hcontent. apply bool_decide_eq_true in Hcontent.
  by rewrite Hcontent.
Qed.

Lemma question_after_segment msg :
  not_other msg →
  question_after (Some current_question) msg = Some current_question.
Proof.
  unfold is_other_question, question_after. intros Hmsg.
  destruct (get_is (msg_role msg) "user"); [|done].
  simpl in Hmsg. apply negb_false_iff in Hmsg.
  unfold get_is in Hmsg. apply bool_decide_eq_true in Hmsg. by rewrite Hmsg.
Qed.

Lemma annotate_segment seg :
  Forall not_other seg →
  annotate (Some current_question) seg
  = map (λ msg, (Some current_question, msg)) seg.
Proof.
  induction 1 as [|msg seg Hmsg _ IH]; [done|].
  simpl. by rewrite (question_after_segment _ Hmsg), IH.
Qed.

End PersonaViewFacts.

Section PersonaViewClaims.

Import PersonaView.

(** C2: the responses the persona view shows are records of the
    transcript, taken in transcript order, and each of them is a named
    answer of another persona whose question, the latest question record
    before it, is the current question.  No answer to another question and
    no answer of the requesting persona is shown. *)
Theorem persona_view_only_peer_answers
    (persona_name persona_description current_question : string)
    (transcript : list Msg) (topic : string) :
  ∃ shown : list (option string * Msg),
    shown `sublist_of` annotate None transcript
    ∧ responses_for_current_question persona_name current_question transcript
      = map (λ qm, render_answer qm.2) shown
    ∧ transcript_to_persona_prompt persona_name persona_description
        current_question transcript topic
      = [system_msg "You are in a group interview.";
         user_msg
           (persona_prompt_text persona_name persona_description
              current_question topic (map (λ qm, render_answer qm.2) shown))]
    ∧ Forall (λ qm,
                qm.1 = Some current_question
                ∧ msg_role qm.2 = Some "assistant"
                ∧ ∃ name, msg_name qm.2 = Some name ∧ name ≠ persona_name)
             shown.
Proof.
  assert (∃ shown : list (option string * Msg),
    shown `sublist_of` annotate None transcript
    ∧ responses_for_current_question persona_name current_question transcript
      = map (λ qm, render_answer qm.2) shown
    ∧ Forall (λ qm,
                qm.1 = Some current_question
                ∧ msg_role qm.2 = Some "assistant"
                ∧ ∃ name, msg_name qm.2 = Some name ∧ name ≠ persona_name)
             shown) as (shown & Hsub & Hresp & Hall).
  { destruct (split_at_first_current current_question transcript)
      as [Hnone|(pre & q & tail & -> & Hpre & Hq)].
    { exists []. split; [apply sublist_nil_l|]. split; [|done].
      by apply responses_without_current. }
    destruct (split_at_first_other current_question tail)
      as (seg & rest & -> & Hseg & Hrest).
    exists (map (λ msg, (Some current_question, msg))
              (filter (λ msg, is_peer_answer persona_name msg = true) seg)).
    split; [|split].
    - rewrite annotate_app. apply sublist_inserts_l. simpl.
      apply sublist_cons. rewrite annotate_app. apply sublist_inserts_r.
      rewrite (question_after_current current_question _ q Hq).
      rewrite (annotate_segment current_question seg Hseg).
      apply (fmap_sublist (λ msg, (Some current_question, msg))).
      apply sublist_filter.
    - rewrite (responses_of_split persona_name current_question) by done.
      by rewrite map_map.
    - apply Forall_fmap, Forall_forall. intros msg Hmsg.
      apply list_elem_of_filter in Hmsg as [Hpeer _]. simpl.
      unfold is_peer_answer, get_is in Hpeer.
      apply andb_true_iff in Hpeer as [Hpeer Hown].
      apply andb_true_iff in Hpeer as [Hrole Hname].
      apply bool_decide_eq_true in Hrole, Hname.
      apply negb_true_iff, bool_decide_eq_false in Hown.
      split; [done|]. split; [done|].
      destruct Hname as [name Hname]. exists name. split; [done|].
      intros ->. done. }
  exists shown. split; [done|]. split; [done|]. split; [|done].
  unfold transcript_to_persona_prompt. by rewrite Hresp.
Qed.

(** C10: the scan is anchored at the first question record that has
    the current question's text.  The prompt the composer returns is the
    fixed system message and a user message that names the persona, its
    description, the topic and the current question, and then either says
    that the persona is the first to answer or lists, one per paragraph,
    the answers it shows.  Either the transcript has no record with the
    current question's text and nothing is shown, or it splits into the
    records before the first such record, that record, the records up to
    the next different question (or the end), and the rest; what is shown
    is exactly the named answers of the other personas in the middle part,
    in order.  An answer given when the same question is asked again later
    can therefore be left out, as in the transcript of the second part. *)
Theorem persona_view_anchors_first_occurrence :
  (∀ (persona_name persona_description current_question : string)
     (transcript : list Msg) (topic : string),
     ∃ shown : list Msg,
       transcript_to_persona_prompt persona_name persona_description
         current_question transcript topic
       = [system_msg "You are in a group interview.";
          user_msg
            (("You are " +:+ persona_name +:+ "." +:+ nl
              +:+ "Persona details: " +:+ persona_description +:+ nl +:+ nl
              +:+ "Interview topic: " +:+ topic +:+ nl +:+ nl
              +:+ "Current question: " +:+ current_question +:+ nl +:+ nl)
             +:+ match shown with
                 | [] =>
                   "You are the first to answer this question. Please provide your perspective."
                   +:+ nl
                 | _ =>
                   "Other participants have already responded to this question:"
                   +:+ nl +:+ nl
                   +:+ concat_str
                         (map (λ msg,
                                 (default "Unknown" (msg_name msg) +:+ ": "
                                  +:+ default EmptyString (msg_content msg))
                                 +:+ nl +:+ nl)
                            shown)
                   +:+ "Please provide your answer, and feel free to react to what others have said after giving your own perspective."
                   +:+ nl
                 end)]
       ∧ ((Forall (λ msg, is_current_question current_question msg = false)
             transcript
           ∧ shown = [])
          ∨ ∃ pre q seg rest,
              transcript = pre ++ q :: seg ++ rest
              ∧ Forall (λ msg, is_current_question current_question msg = false)
                  pre
              ∧ is_current_question current_question q = true
              ∧ Forall (λ msg, is_other_question current_question msg = false)
                  seg
              ∧ (rest = [] ∨ ∃ msg later,
                   rest = msg :: later
                   ∧ is_other_question current_question msg = true)
              ∧ shown
                = filter (λ msg, is_peer_answer persona_name msg = true) seg))
  ∧ (∃ (persona_name persona_description current_question : string)
       (transcript : list Msg) (topic : string)
       (i : nat) (later_answer : Msg) (text : string),
       annotate None transcript !! i = Some (Some current_question, later_answer)
       ∧ is_peer_answer persona_name later_answer = true
       ∧ transcript_to_persona_prompt persona_name persona_description
           current_question transcript topic
         = [system_msg "You are in a group interview."; user_msg text]
       ∧ ¬ substring_of
             (default "Unknown" (msg_name later_answer) +:+ ": "
              +:+ default EmptyString (msg_content later_answer))
             text).
Proof.
  split.
  - intros persona_name persona_description current_question transcript topic.
    assert (∀ shown : list Msg,
      responses_for_current_question persona_name current_question transcript
      = map render_answer shown →
      transcript_to_persona_prompt persona_name persona_description
        current_question transcript topic
      = [system_msg "You are in a group interview.";
         user_msg
           (("You are " +:+ persona_name +:+ "." +:+ nl
             +:+ "Persona details: " +:+ persona_description +:+ nl +:+ nl
             +:+ "Interview topic: " +:+ topic +:+ nl +:+ nl
             +:+ "Current question: " +:+ current_question +:+ nl +:+ nl)
            +:+ match shown with
                | [] =>
                  "You are the first to answer this question. Please provide your perspective."
                  +:+ nl
                | _ =>
                  "Other participants have already responded to this question:"
                  +:+ nl +:+ nl
                  +:+ concat_str
                        (map (λ msg,
                                (default "Unknown" (msg_name msg) +:+ ": "
                                 +:+ default EmptyString (msg_content msg))
                                +:+ nl +:+ nl)
                           shown)
                  +:+ "Please provide your answer, and feel free to react to what others have said after giving your own perspective."
                  +:+ nl
                end)]) as Hprompt.
    { intros shown Hshown. unfold transcript_to_persona_prompt.
      rewrite Hshown. unfold persona_prompt_text.
      destruct shown as [|msg shown]; [done|].
      simpl map. by rewrite map_map. }
    destruct (split_at_first_current current_question transcript)
      as [Hnone|(pre & q & tail & -> & Hpre & Hq)].
    { exists []. split; [|by left].
      apply (Hprompt []). by apply responses_without_current. }
    destruct (split_at_first_other current_question tail)
      as (seg & rest & -> & Hseg & Hrest).
    exists (filter (λ msg, is_peer_answer persona_name msg = true) seg).
    split.
    + apply (Hprompt (filter _ seg)). by apply responses_of_split.
    + right. exists pre, q, seg, rest. by repeat (split; [done|]).
  - eexists "Bob", "desk worker", "Q1",
      [question_record "Q1"; answer_record "Alice" "a1";
       question_record "Q2"; answer_record "Alice" "a2";
       question_record "Q1"; answer_record "Alice" "a3"],
      "T", 5, (answer_record "Alice" "a3"), _.
    split; [reflexivity|]. split; [reflexivity|]. split; [reflexivity|].
    intros Hin%contains_complete. vm_compute in Hin. done.
Qed.

End PersonaViewClaims.

(** ** The facilitator view *)

(** The window of recent records: the last twenty, or all of them. *)
Lemma recent_msgs_window (transcript : list Msg) :
  ∃ older,
    transcript = older ++ recent_msgs transcript
    ∧ length (recent_msgs transcript) = min 20 (length transcript).
Proof.
  unfold recent_msgs. case_bool_decide.
  - exists (take (length transcript - 20) transcript).
    rewrite firstn_skipn, length_drop. split; [done|lia].
  - exists []. split; [done|lia].
Qed.

Lemma recent_msgs_short (window : list Msg) :
  length window ≤ 20 → recent_msgs window = window.
Proof. intros Hlen. unfold recent_msgs. by rewrite bool_decide_eq_false_2 by lia. Qed.

Section ReprFacts.

Context {U : Unicode}.

Lemma plain_char_ascii c :
  plain_char c = true →
  is_continuation c = false ∧ is_lead c = false
  ∧ ascii_of (str1 c) = Some c
  ∧ Ascii.eqb c single_quote = false
  ∧ repr_ascii single_quote c = str1 c.
Proof.
  unfold plain_char, is_continuation, is_lead, ascii_of, repr_ascii, str1.
  intros H. repeat (apply andb_true_iff in H as [H ?]).
  apply Nat.leb_le in H.
  match goal with H : (_ <? 127) = true |- _ => apply Nat.ltb_lt in H end.
  match goal with H : negb (Ascii.eqb c backslash) = true |- _ =>
    apply negb_true_iff in H; rename H into Hback end.
  match goal with H : negb (Ascii.eqb c single_quote) = true |- _ =>
    apply negb_true_iff in H; rename H into Hsingle end.
  split; [|split; [|split; [|split; [done|]]]].
  - apply andb_false_iff. left. apply Nat.leb_gt. lia.
  - apply Nat.leb_gt. lia.
  - rewrite (proj2 (Nat.ltb_lt _ _)); [done|lia].
  - rewrite Hsingle, Hback. cbn [orb].
    rewrite (proj2 (Nat.eqb_neq _ 9)), (proj2 (Nat.eqb_neq _ 10)),
      (proj2 (Nat.eqb_neq _ 13)) by lia.
    rewrite (proj2 (Nat.ltb_ge _ 32)), (proj2 (Nat.eqb_neq _ 127)) by lia.
    done.
Qed.

Lemma plain_chars s :
  plain s = true →
  has_char single_quote s = false
  ∧ split_chars s = (EmptyString, map str1 (list_ascii_of_string s)).
Proof.
  induction s as [|c s IH]; [done|]. intros Hcs.
  change (plain_char c && plain s = true) in Hcs.
  apply andb_true_iff in Hcs as [Hc Hs]. destruct (IH Hs) as [Hquote Hsplit].
  destruct (plain_char_ascii c Hc) as (Hcont & Hlead & _ & Hsingle & _).
  split.
  - change (Ascii.eqb single_quote c || has_char single_quote s = false).
    by rewrite Hquote, orb_false_r, Ascii.eqb_sym.
  - cbn [split_chars list_ascii_of_string map].
    by rewrite Hsplit, Hcont, Hlead.
Qed.

(** A plain text is printed between single quotes, as it stands. *)
Lemma repr_str_plain s :
  plain s = true → repr_str s = "'" +:+ s +:+ "'".
Proof.
  intros Hs. destruct (plain_chars s Hs) as [Hquote Hsplit].
  unfold repr_str, repr_body, chars. rewrite Hquote, Hsplit. cbn [andb stray app].
  change (String single_quote
            (concat_str (map (repr_char single_quote)
                           (map str1 (list_ascii_of_string s)))
             +:+ str1 single_quote)
          = String single_quote (s +:+ str1 single_quote)).
  f_equal. f_equal. clear Hquote Hsplit.
  induction s as [|c s IH]; [done|].
  change (plain_char c && plain s = true) in Hs.
  apply andb_true_iff in Hs as [Hc Hs].
  cbn [list_ascii_of_string map concat_str foldr]. fold (concat_str (map (repr_char single_quote) (map str1 (list_ascii_of_string s)))).
  rewrite (IH Hs).
  destruct (plain_char_ascii c Hc) as (_ & _ & Hascii & _ & Hrepr).
  unfold repr_char. by rewrite Hascii, Hrepr.
Qed.

Lemma repr_list_plain questions :
  Forall (λ q, plain q = true) questions →
  repr_list questions
  = "[" +:+ join ", " (map (λ q, "'" +:+ q +:+ "'") questions) +:+ "]".
Proof.
  intros Hall. unfold repr_list. do 3 f_equal.
  induction Hall as [|q questions Hq _ IH]; [done|].
  cbn [map]. by rewrite IH, (repr_str_plain q Hq).
Qed.

End ReprFacts.

(** C6, as amended: the facilitator prompt is a fixed system message and
    a user message whose text is exactly this: the topic; the whole list of
    core questions and the whole list of questions already asked, each as
    Python prints a list of strings (plain texts between single quotes,
    separated by commas); one line for each record of a window of the
    transcript, which is its last twenty records, or all of them when
    there are fewer; and the closing instruction.  Older records have no
    influence on the text, and the text gives the two whole lists where
    the claim has the questions not asked yet and the count of
    follow-ups. *)
Theorem facilitator_view_contents {U : Unicode}
    (topic : string) (transcript : list Msg)
    (core_questions asked_questions : list string) :
  ∃ older window,
    transcript = older ++ window
    ∧ length window = min 20 (length transcript)
    ∧ transcript_to_facilitator_prompt topic transcript core_questions
        asked_questions
      = [system_msg "You are a facilitator conducting an interview.";
         user_msg
           (("You are facilitating an interview about the following idea:"
             +:+ nl
             +:+ topic +:+ nl
             +:+ nl
             +:+ "Questions to ask:" +:+ nl
             +:+ "- Core questions: " +:+ repr_list core_questions +:+ nl
             +:+ "- Already asked: " +:+ repr_list asked_questions +:+ nl
             +:+ nl
             +:+ "Recent conversation:" +:+ nl)
            +:+ concat_str
                  (map (λ msg,
                          if bool_decide
                               (default EmptyString (msg_role msg) = "user")
                          then nl +:+ "Facilitator: "
                               +:+ default EmptyString (msg_content msg) +:+ nl
                          else if bool_decide
                                    (default EmptyString (msg_role msg)
                                     = "assistant")
                          then if bool_decide
                                    (default EmptyString (msg_name msg)
                                     = EmptyString)
                               then "Assistant: "
                                    +:+ default EmptyString (msg_content msg)
                                    +:+ nl
                               else default EmptyString (msg_name msg) +:+ ": "
                                    +:+ default EmptyString (msg_content msg)
                                    +:+ nl
                          else EmptyString)
                     window)
            +:+ nl
            +:+ "Decide on the next question to ask or if the interview should end.")]
    ∧ (Forall (λ q, plain q = true) core_questions →
       repr_list core_questions
       = "[" +:+ join ", " (map (λ q, "'" +:+ q +:+ "'") core_questions)
         +:+ "]")
    ∧ (Forall (λ q, plain q = true) asked_questions →
       repr_list asked_questions
       = "[" +:+ join ", " (map (λ q, "'" +:+ q +:+ "'") asked_questions)
         +:+ "]").
Proof.
  destruct (recent_msgs_window transcript) as (older & Hsplit & Hlen).
  exists older, (recent_msgs transcript). split; [done|]. split; [done|].
  split; [|split; apply repr_list_plain].
  unfold transcript_to_facilitator_prompt, facilitator_prompt_text,
    facilitator_header, facilitator_footer.
  do 6 f_equal. apply map_ext. intros msg.
  unfold facilitator_line, truthy, get_or.
  by repeat case_bool_decide.
Qed.

(** ** The analysis stage *)

Section AnalysisFacts.

Context {E : Type} {U : Unicode} (env : Env E).
Variables (topic : string) (personas : list Persona).

Lemma save_transcript_to_file_Ok markdown_content w filepath w' :
  save_transcript_to_file env markdown_content topic w = Ok filepath w' →
  filepath = transcript_path (strftime env "%Y%m%d" (calls w)) topic
  ∧ write_file env (calls w) filepath markdown_content = None
  ∧ w' = mkWorld (calls w) (<[filepath := markdown_content]> (files w)).
Proof.
  unfold save_transcript_to_file, now_strftime, ret. intros H.
  apply bind_Ok_inv in H as (date_str & w1 & [= <- <-] & H).
  apply bind_Ok_inv in H as (u & w2 & Hwrite & [= <- <-]).
  apply write_to_Ok_inv in Hwrite as [Hwrite ->]. done.
Qed.

Lemma save_transcript_to_file_Raised markdown_content w e w' :
  save_transcript_to_file env markdown_content topic w = Raised e w' →
  calls w' = calls w
  ∧ ∀ path,
      (∀ date_str, path ≠ transcript_path date_str topic) →
      files w' !! path = files w !! path.
Proof.
  unfold save_transcript_to_file, now_strftime, ret. intros H.
  apply bind_Raised_inv in H as [H|(date_str & w1 & [= <- <-] & H)]; [done|].
  apply bind_Raised_inv in H as [H|(u & w2 & _ & H)]; [|done].
  apply write_to_Raised_inv in H as [Hcalls Hfiles]. split; [done|].
  intros path Hpath. apply Hfiles, Hpath.
Qed.

Lemma final_analysis_Ok summarizer sentiment_agent t w result w' :
  final_analysis env topic personas summarizer sentiment_agent t w
  = Ok result w' →
  gen_sentiment env (calls w) sentiment_agent
    (create_sentiment_prompt t personas) = inr (res_sentiment result)
  ∧ gen_summary env (1 + calls w) summarizer
      (transcript_to_string_message topic t) = inr (res_report result)
  ∧ res_topic result = topic
  ∧ res_transcript_file result
    = transcript_path (strftime env "%Y%m%d" (2 + calls w)) topic
  ∧ calls w' = 2 + calls w
  ∧ files w'
    = <[res_transcript_file result :=
          transcript_to_markdown (strftime env "%Y-%m-%d" (2 + calls w)) t
            (res_topic result) (res_report result) (res_sentiment result)]>
        (files w).
Proof.
  unfold final_analysis. intros H.
  apply bind_Ok_inv in H as (u & w0 & Hprint & H).
  apply console_out_Ok_inv in Hprint as [_ ->].
  apply bind_Ok_inv in H as (sentiment & w1 & Hsent & H).
  apply invoke_Ok_inv in Hsent as [Hsent ->].
  apply bind_Ok_inv in H as (report & w2 & Hsum & H).
  apply invoke_Ok_inv in Hsum as [Hsum ->].
  apply bind_Ok_inv in H as (date & w3 & [= <- <-] & H).
  apply bind_Ok_inv in H as (saved & w4 & Hsave & H).
  apply save_transcript_to_file_Ok in Hsave as (-> & _ & ->).
  apply bind_Ok_inv in H as (u' & w5 & Hsummary & [= <- <-]).
  apply console_out_Ok_inv in Hsummary as [_ ->]. done.
Qed.

(** An analysis that raises has made at most two requests and has
    touched no file but the transcript file of its topic. *)
Lemma final_analysis_Raised summarizer sentiment_agent t w e w' :
  final_analysis env topic personas summarizer sentiment_agent t w
  = Raised e w' →
  calls w' ≤ 2 + calls w
  ∧ ∀ path,
      (∀ date_str, path ≠ transcript_path date_str topic) →
      files w' !! path = files w !! path.
Proof.
  unfold final_analysis. intros H.
  apply bind_Raised_inv in H as [H|(u & w0 & Hprint & H)].
  { apply console_out_Raised_inv in H as [_ ->]. split; [lia|done]. }
  apply console_out_Ok_inv in Hprint as [_ ->].
  apply bind_Raised_inv in H as [H|(sentiment & w1 & Hsent & H)].
  { apply invoke_Raised_inv in H as [_ ->]. simpl. split; [lia|done]. }
  apply invoke_Ok_inv in Hsent as [_ ->].
  apply bind_Raised_inv in H as [H|(report & w2 & Hsum & H)].
  { apply invoke_Raised_inv in H as [_ ->]. simpl. split; [lia|done]. }
  apply invoke_Ok_inv in Hsum as [_ ->].
  apply bind_Raised_inv in H as [H|(date & w3 & [= <- <-] & H)]; [done|].
  apply bind_Raised_inv in H as [H|(saved & w4 & Hsave & H)].
  { apply save_transcript_to_file_Raised in H as [Hcalls Hfiles].
    simpl in *. split; [lia|done]. }
  apply save_transcript_to_file_Ok in Hsave as (-> & _ & ->).
  apply bind_Raised_inv in H as [H|(u' & w5 & _ & H)]; [|done].
  apply console_out_Raised_inv in H as [_ ->]. simpl. split; [lia|].
  intros path Hpath. by rewrite lookup_insert_ne.
Qed.

Variables (core_questions : list string) (max_followups : Z).

(** A returning interview: its loop returned, the analysis was run on
    the final transcript, and its only change to the files is the export
    it wrote. *)
Lemma run_interview_Ok fuel w result w' :
  run_interview env topic personas core_questions max_followups fuel w
  = Ok result w' →
  ∃ rounds w1 date,
    interview_rounds env topic personas core_questions max_followups fuel w
    = Ok rounds w1
    ∧ gen_sentiment env (calls w1) make_sentiment_agent
        (create_sentiment_prompt
           (transcript (final_state initial_state rounds)) personas)
      = inr (res_sentiment result)
    ∧ res_topic result = topic
    ∧ files w'
      = <[res_transcript_file result :=
            transcript_to_markdown date
              (transcript (final_state initial_state rounds))
              (res_topic result) (res_report result) (res_sentiment result)]>
          (files w).
Proof.
  unfold run_interview. intros H.
  apply bind_Ok_inv in H as (rounds & w1 & Hloop & H).
  apply final_analysis_Ok in H as (Hsent & _ & Htopic & _ & _ & Hfiles).
  exists rounds, w1, (strftime env "%Y-%m-%d" (2 + calls w1)).
  split; [done|]. split; [done|]. split; [done|].
  apply interview_rounds_from in Hloop as [_ Hsame]. by rewrite Hfiles, Hsame.
Qed.

(** An interview that raises has touched no file but the transcript
    file of its topic. *)
Lemma run_interview_Raised fuel w e w' :
  run_interview env topic personas core_questions max_followups fuel w
  = Raised e w' →
  ∀ path,
    (∀ date_str, path ≠ transcript_path date_str topic) →
    files w' !! path = files w !! path.
Proof.
  unfold run_interview. intros H.
  apply bind_Raised_inv in H as [H|(rounds & w1 & Hloop & H)].
  - apply interview_rounds_Raised in H. intros path _. by rewrite H.
  - apply final_analysis_Raised in H as [_ Hfiles].
    apply interview_rounds_from in Hloop as [_ Hsame].
    intros path Hpath. rewrite Hfiles by done. by rewrite Hsame.
Qed.

End AnalysisFacts.

(** ** The sentiment request and its result *)

Lemma dict_set_keys key value (d : PersonaResponses) :
  (dict_set key value d).*1
  = if bool_decide (key ∈ d.*1) then d.*1 else d.*1 ++ [key].
Proof.
  induction d as [|[k v] d IH]; [done|]. csimpl.
  destruct (decide (k = key)) as [->|Hk].
  - rewrite (bool_decide_eq_true_2 (key = key)) by done. csimpl.
    rewrite bool_decide_eq_true_2; [done|]. by left.
  - rewrite (bool_decide_eq_false_2 (k = key)) by done. csimpl. rewrite IH.
    destruct (decide (key ∈ d.*1)) as [Hin|Hin].
    + rewrite (bool_decide_eq_true_2 (key ∈ d.*1)) by done.
      rewrite bool_decide_eq_true_2; [done|]. by right.
    + rewrite (bool_decide_eq_false_2 (key ∈ d.*1)) by done.
      rewrite bool_decide_eq_false_2; [done|].
      intros [->|?]%elem_of_cons; done.
Qed.

Lemma dict_append_keys key item (d : PersonaResponses) :
  (dict_append key item d).*1 = d.*1.
Proof.
  induction d as [|[k v] d IH]; [done|]. csimpl.
  destruct (bool_decide (k = key)); csimpl; [done|]. by rewrite IH.
Qed.

Lemma init_keys_from (d : PersonaResponses) (personas : list Persona) :
  NoDup d.*1 →
  NoDup (foldl (λ d p, dict_set (p_name p) [] d) d personas).*1
  ∧ (∀ name,
       name ∈ (foldl (λ d p, dict_set (p_name p) [] d) d personas).*1
       ↔ name ∈ d.*1 ∨ name ∈ map p_name personas)
  ∧ (NoDup (d.*1 ++ map p_name personas) →
     (foldl (λ d p, dict_set (p_name p) [] d) d personas).*1
     = d.*1 ++ map p_name personas).
Proof.
  revert d. induction personas as [|p ps IH]; intros d Hd; simpl.
  { split; [done|]. split; [|by rewrite app_nil_r].
    intros name. rewrite elem_of_nil. tauto. }
  assert (NoDup (dict_set (p_name p) [] d).*1) as Hd'.
  { rewrite dict_set_keys. case_bool_decide; [done|].
    apply NoDup_app. split; [done|]. split; [|apply NoDup_singleton].
    intros x Hx ->%list_elem_of_singleton. done. }
  destruct (IH _ Hd') as (Hnodup & Hin & Horder).
  split; [done|]. split.
  - intros name. rewrite Hin, dict_set_keys, elem_of_cons.
    case_bool_decide as Hk.
    + split; [tauto|]. intros [?|[->|?]]; auto.
    + rewrite elem_of_app, list_elem_of_singleton. tauto.
  - intros Hall. rewrite Horder; rewrite dict_set_keys.
    + rewrite bool_decide_eq_false_2; [by rewrite <- app_assoc|].
      apply NoDup_app in Hall as (_ & Hdisj & _). intros Hk.
      apply (Hdisj _ Hk). by left.
    + rewrite bool_decide_eq_false_2; [by rewrite <- app_assoc|].
      apply NoDup_app in Hall as (_ & Hdisj & _). intros Hk.
      apply (Hdisj _ Hk). by left.
Qed.

Lemma group_step_keys st msg : (group_step st msg).2.*1 = st.2.*1.
Proof.
  destruct st as [c d]. unfold group_step.
  destruct (get_is (msg_role msg) "user"); [done|].
  destruct (msg_name msg) as [name|]; [|done].
  destruct (_ && _); [|done]. simpl. apply dict_append_keys.
Qed.

Lemma foldl_group_step_keys transcript st :
  (foldl group_step st transcript).2.*1 = st.2.*1.
Proof.
  revert st. induction transcript as [|msg t IH]; intros st; [done|].
  simpl. by rewrite IH, group_step_keys.
Qed.


Section SentimentClaims.

Context {E : Type} {U : Unicode} (env : Env E).


End SentimentClaims.

(** ** The batch driver *)

Section BatchFacts.

Context {E : Type} {U : Unicode} (env : Env E).
Variables (fuel : nat) (personas : list Persona) (max_followups : Z).

Local Abbreviation batch size i features results :=
  (batch_loop env fuel size i features personas max_followups results).

(** The loop over two lists of features, one after the other. *)
Lemma batch_loop_app size i features1 features2 results w :
  batch size i (features1 ++ features2) results w
  = bind (batch size i features1 results)
      (λ results', batch size (i + length features1) features2 results') w.
Proof.
  revert i results w.
  induction features1 as [|feature features1 IH]; intros i results w.
  { simpl. unfold bind, ret. by rewrite Nat.add_0_r. }
  simpl. unfold bind.
  destruct (console_out env _ w) as [u w0|e w0|]; [|done..].
  destruct (run_interview _ _ _ _ _ _ w0) as [result w1|e w1|]; [|done..].
  destruct ((if bool_decide (i < size) then console_out env BatchSeparator
             else ret ()) w1) as [u' w2|e w2|]; [|done..].
  rewrite IH. unfold bind.
  by replace (S i + length features1) with (i + S (length features1)) by lia.
Qed.

(** A batch that returns: one result per feature, after those it started
    with, each under its feature's topic. *)
Lemma batch_loop_Ok size i features results w results' w' :
  batch size i features results w = Ok results' w' →
  ∃ new,
    results' = results ++ new
    ∧ Forall2 (λ feature result, res_topic result = f_topic feature)
        features new.
Proof.
  revert i results w.
  induction features as [|feature features IH]; intros i results w; simpl.
  { intros [= <- <-]. exists []. by rewrite app_nil_r. }
  intros H. apply bind_Ok_inv in H as (u & w0 & _ & H).
  apply bind_Ok_inv in H as (result & w1 & Hrun & H).
  apply bind_Ok_inv in H as (u' & w2 & _ & H).
  apply IH in H as (new & -> & Hnew).
  apply run_interview_Ok in Hrun as (_ & _ & _ & _ & _ & Htopic & _).
  exists (result :: new). split; [by rewrite <- app_assoc|]. by constructor.
Qed.

Lemma separator_Ok size i w u w' :
  (if bool_decide (i < size) then console_out env BatchSeparator else ret tt) w
  = Ok u w' →
  w' = w.
Proof.
  case_bool_decide; [|by intros [= _ <-]].
  by intros [_ ->]%console_out_Ok_inv.
Qed.

(** The reports of a returning batch are on disk, as long as no two of
    its interviews wrote to the same path. *)
Lemma batch_loop_on_disk size i features results w results' w' :
  batch size i features results w = Ok results' w' →
  NoDup (map res_transcript_file results') →
  Forall (report_on_disk (files w)) results →
  Forall (report_on_disk (files w')) results'.
Proof.
  revert i results w.
  induction features as [|feature features IH]; intros i results w; simpl.
  { by intros [= <- <-]. }
  intros H Hnodup Hdisk. apply bind_Ok_inv in H as (u & w0 & Hprint & H).
  apply console_out_Ok_inv in Hprint as [_ ->].
  apply bind_Ok_inv in H as (result & w1 & Hrun & H).
  apply bind_Ok_inv in H as (u' & w2 & Hsep & H).
  apply separator_Ok in Hsep as ->.
  pose proof (batch_loop_Ok _ _ _ _ _ _ _ H) as (new & -> & _).
  eapply IH; [exact H|exact Hnodup|].
  apply run_interview_Ok in Hrun as (rounds & _ & date & _ & _ & _ & Hfiles).
  rewrite Hfiles. apply Forall_app. split.
  - rewrite !map_app in Hnodup.
    apply NoDup_app in Hnodup as (Hnodup & _ & _).
    apply NoDup_app in Hnodup as (_ & Hdisj & _).
    apply Forall_forall. intros earlier Hin.
    rewrite Forall_forall in Hdisk.
    destruct (Hdisk _ Hin) as (date' & t' & Hfile).
    exists date', t'. rewrite lookup_insert_ne; [done|].
    intros Heq. apply (Hdisj (res_transcript_file earlier)).
    + apply list_elem_of_fmap. by exists earlier.
    + simpl. rewrite <- Heq. by left.
  - apply Forall_singleton. eexists _, _. by rewrite lookup_insert_eq.
Qed.

(** A returning batch is its banner, its loop and its summary table. *)
Lemma run_batch_interviews_Ok features w results w' :
  run_batch_interviews env fuel features personas max_followups w
  = Ok results w' →
  batch (length features) 1 features [] w = Ok results w'.
Proof.
  unfold run_batch_interviews. intros H.
  apply bind_Ok_inv in H as (u & w0 & Hprint & H).
  apply console_out_Ok_inv in Hprint as [_ ->].
  apply bind_Ok_inv in H as (results' & w1 & Hloop & H).
  apply bind_Ok_inv in H as (u' & w2 & Hsummary & [= <- <-]).
  by apply console_out_Ok_inv in Hsummary as [_ ->].
Qed.


End BatchFacts.

(** ** The claims on concrete runs *)

Section ConcreteRuns.

Local Existing Instance letters_only.

(** C1: the budget of follow-ups is exceeded.  With [max_followups = 0]
    and a facilitator whose first question is not a core question, the
    loop runs a round on that question and leaves [followups_used = 1],
    above [max_followups]: the stop test comes after the round and the
    count. *)
Lemma followups_exceed_zero_budget :
  ∃ st w',
    interview_rounds env_followups "T" [alice; bob] ["Q1"] 0 1 empty_world
    = Ok [st] w'
    ∧ asked_questions st = ["Bonus"]
    ∧ followups_used st = 1%Z
    ∧ ¬ (followups_used st ≤ 0)%Z.
Proof.
  eexists _, _. split; [vm_compute; reflexivity|]. split; [reflexivity|].
  split; [reflexivity|]. simpl. lia.
Qed.

Lemma interview_loop_bounded_witness :
  ["Q1"] ≠ ([] : list string)
  ∧ (0 ≤ 1)%Z
  ∧ length ["Q1"] + Z.to_nat 1 ≤ 2
  ∧ interview_rounds env_followups "T" [alice; bob] ["Q1"] 1 2 empty_world
    ≠ OutOfFuel
  ∧ ∀ rounds w',
      interview_rounds env_followups "T" [alice; bob] ["Q1"] 1 2 empty_world
      = Ok rounds w' →
      length rounds ≤ length ["Q1"] + Z.to_nat 1
      ∧ StronglySorted Z.le (map followups_used (initial_state :: rounds))
      ∧ Forall (λ st,
                  (followups_used st ≤ Z.max 1 1)%Z
                  ∧ length (asked_questions st) ≤ length ["Q1"] + Z.to_nat 1)
               (initial_state :: rounds).
Proof.
  assert (["Q1"] ≠ ([] : list string)) as H1 by discriminate.
  assert (0 ≤ 1)%Z as H2 by lia.
  assert (length ["Q1"] + Z.to_nat 1 ≤ 2) as H3 by (simpl; lia).
  split; [exact H1|]. split; [exact H2|]. split; [exact H3|].
  exact (interview_loop_bounded env_followups "T" [alice; bob] ["Q1"] 1 2
           empty_world H1 H2 H3).
Defined.

Lemma transcript_length_after_termination_witness :
  interview_rounds env_one_round "T" [alice; bob] ["Q1"] 2 5 empty_world
  = Ok [round_one] (mkWorld 4 ∅)
  ∧ length (transcript (final_state initial_state [round_one]))
    = length [round_one] * (1 + length [alice; bob]).
Proof.
  assert (interview_rounds env_one_round "T" [alice; bob] ["Q1"] 2 5
            empty_world = Ok [round_one] (mkWorld 4 ∅)) as H
    by (vm_compute; reflexivity).
  split; [exact H|].
  exact (transcript_length_after_termination env_one_round "T" [alice; bob]
           ["Q1"] 2 5 empty_world [round_one] (mkWorld 4 ∅) H).
Defined.

Lemma answers_in_roster_order_witness :
  interview_rounds env_one_round "T" [alice; bob] ["Q1"] 2 5 empty_world
  = Ok [round_one] (mkWorld 4 ∅)
  ∧ ∃ blocks : list (string * list string),
      length blocks = length [round_one]
      ∧ transcript (final_state initial_state [round_one])
        = mjoin (map (λ b, question_record b.1 :: round_answers [alice; bob] b.2)
                   blocks)
      ∧ Forall (λ b,
                  length (round_answers [alice; bob] b.2) = length [alice; bob]
                  ∧ map msg_name (round_answers [alice; bob] b.2)
                    = map (λ p, Some (p_name p)) [alice; bob]
                  ∧ (NoDup (map p_name [alice; bob]) →
                     NoDup (map msg_name (round_answers [alice; bob] b.2))))
               blocks.
Proof.
  assert (interview_rounds env_one_round "T" [alice; bob] ["Q1"] 2 5
            empty_world = Ok [round_one] (mkWorld 4 ∅)) as H
    by (vm_compute; reflexivity).
  split; [exact H|].
  exact (answers_in_roster_order env_one_round "T" [alice; bob] ["Q1"] 2 5
           empty_world [round_one] (mkWorld 4 ∅) H).
Defined.



(** C6 as stated fails: with core questions ["Qa"], ["Qb"] and asked
    questions ["Qa"], ["Xc"], one core question remains and one follow-up
    has been used; the prompt prints the two lists as they are, and holds
    neither the list of the remaining question nor the count. *)
Lemma facilitator_view_omits_remaining_and_count :
  transcript_to_facilitator_prompt "T" [] ["Qa"; "Qb"] ["Qa"; "Xc"]
  = [system_msg "You are a facilitator conducting an interview.";
     user_msg
       ("You are facilitating an interview about the following idea:" +:+ nl
        +:+ "T" +:+ nl +:+ nl
        +:+ "Questions to ask:" +:+ nl
        +:+ "- Core questions: ['Qa', 'Qb']" +:+ nl
        +:+ "- Already asked: ['Qa', 'Xc']" +:+ nl +:+ nl
        +:+ "Recent conversation:" +:+ nl +:+ nl
        +:+ "Decide on the next question to ask or if the interview should end.")]
  ∧ not_yet_asked ["Qa"; "Qb"] ["Qa"; "Xc"] = ["Qb"]
  ∧ ¬ substring_of (repr_list (not_yet_asked ["Qa"; "Qb"] ["Qa"; "Xc"]))
        (facilitator_prompt_text "T" [] ["Qa"; "Qb"] ["Qa"; "Xc"])
  ∧ followups_among ["Qa"; "Qb"] ["Qa"; "Xc"] = 1
  ∧ ¬ substring_of (str_of_nat (followups_among ["Qa"; "Qb"] ["Qa"; "Xc"]))
        (facilitator_prompt_text "T" [] ["Qa"; "Qb"] ["Qa"; "Xc"]).
Proof.
  split; [reflexivity|]. split; [reflexivity|]. split; [|split; [reflexivity|]].
  - intros H%contains_complete. vm_compute in H. discriminate H.
  - intros H%contains_complete. vm_compute in H. discriminate H.
Qed.

Lemma immediate_end_runs_analysis_witness :
  gen_facilitator env_ends (calls empty_world)
    (make_facilitator_agent "T" ["Q1"] 2)
    (transcript_to_facilitator_prompt "T" [] ["Q1"] []) = inr end_now
  ∧ should_end end_now = true
  ∧ gen_sentiment env_ends (1 + calls empty_world) make_sentiment_agent
      (create_sentiment_prompt [] [alice; bob]) = inr bob_only
  ∧ gen_summary env_ends (2 + calls empty_world) make_summarizer_agent
      (transcript_to_string_message "T" []) = inr scripted_report
  ∧ write_file env_ends (3 + calls empty_world)
      (transcript_path (strftime env_ends "%Y%m%d" (3 + calls empty_world)) "T")
      (transcript_to_markdown
         (strftime env_ends "%Y-%m-%d" (3 + calls empty_world)) [] "T"
         scripted_report bob_only) = None
  ∧ interview_rounds env_ends "T" [alice; bob] ["Q1"] 2 1 empty_world
    = Ok [] (mkWorld 1 ∅)
  ∧ run_interview env_ends "T" [alice; bob] ["Q1"] 2 1 empty_world
    = Ok (mkInterviewResult "T" scripted_report bob_only
            (transcript_path "20250101" "T"))
         (mkWorld 3
            (<[transcript_path "20250101" "T" :=
                 transcript_to_markdown "2025-01-01" [] "T" scripted_report
                   bob_only]> ∅)).
Proof.
  assert (console_print env_ends (calls empty_world)
            (InterviewHeader "T" [alice; bob]) = None) as C1 by reflexivity.
  assert (console_print env_ends (calls empty_world) InterviewStart = None)
    as C2 by reflexivity.
  assert (gen_facilitator env_ends (calls empty_world)
            (make_facilitator_agent "T" ["Q1"] 2)
            (transcript_to_facilitator_prompt "T" [] ["Q1"] []) = inr end_now)
    as H1 by reflexivity.
  assert (should_end end_now = true) as H2 by reflexivity.
  assert (console_print env_ends (1 + calls empty_world) FacilitatorThanks
          = None) as C3 by reflexivity.
  assert (console_print env_ends (1 + calls empty_world) GeneratingAnalysis
          = None) as C4 by reflexivity.
  assert (gen_sentiment env_ends (1 + calls empty_world) make_sentiment_agent
            (create_sentiment_prompt [] [alice; bob]) = inr bob_only)
    as H3 by reflexivity.
  assert (gen_summary env_ends (2 + calls empty_world) make_summarizer_agent
            (transcript_to_string_message "T" []) = inr scripted_report)
    as H4 by reflexivity.
  assert (write_file env_ends (3 + calls empty_world)
            (transcript_path
               (strftime env_ends "%Y%m%d" (3 + calls empty_world)) "T")
            (transcript_to_markdown
               (strftime env_ends "%Y-%m-%d" (3 + calls empty_world)) [] "T"
               scripted_report bob_only) = None) as H5 by reflexivity.
  assert (console_print env_ends (3 + calls empty_world)
            (ExecutiveSummary scripted_report bob_only
               (transcript_path
                  (strftime env_ends "%Y%m%d" (3 + calls empty_world)) "T"))
          = None) as C5 by reflexivity.
  destruct (immediate_end_runs_analysis env_ends "T" [alice; bob] ["Q1"] 2 0
              empty_world end_now bob_only scripted_report
              C1 C2 H1 H2 C3 C4 H3 H4 H5 C5)
    as (Hloop & _ & Hrun).
  split; [exact H1|]. split; [exact H2|]. split; [exact H3|].
  split; [exact H4|]. split; [exact H5|]. split; [exact Hloop|exact Hrun].
Defined.

Lemma zero_followups_single_round_witness :
  gen_facilitator env_followups (calls empty_world)
    (make_facilitator_agent "T" ["Q1"; "Q2"; "Q3"] 0)
    (transcript_to_facilitator_prompt "T" [] ["Q1"; "Q2"; "Q3"] [])
  = inr (ask "Bonus")
  ∧ should_end (ask "Bonus") = false
  ∧ interview_rounds env_followups "T" [alice; bob] ["Q1"; "Q2"; "Q3"] 0 1
      empty_world ≠ OutOfFuel
  ∧ ∀ rounds w',
      interview_rounds env_followups "T" [alice; bob] ["Q1"; "Q2"; "Q3"] 0 1
        empty_world = Ok rounds w' →
      ∃ st answers,
        rounds = [st]
        ∧ length answers = length [alice; bob]
        ∧ asked_questions st = [next_question (ask "Bonus")]
        ∧ transcript st
          = round_records [alice; bob] (next_question (ask "Bonus")) answers.
Proof.
  assert (gen_facilitator env_followups (calls empty_world)
            (make_facilitator_agent "T" ["Q1"; "Q2"; "Q3"] 0)
            (transcript_to_facilitator_prompt "T" [] ["Q1"; "Q2"; "Q3"] [])
          = inr (ask "Bonus")) as H1 by reflexivity.
  assert (should_end (ask "Bonus") = false) as H2 by reflexivity.
  destruct (zero_followups_single_round env_followups "T" [alice; bob]
              ["Q1"; "Q2"; "Q3"] 0 empty_world (ask "Bonus") H1 H2)
    as (Hfuel & Hone & _).
  split; [exact H1|]. split; [exact H2|]. split; [exact Hfuel|exact Hone].
Defined.



End ConcreteRuns.

(** * Properties of the rest of the program *)

(** ** Joining *)

Lemma join_snoc (sep : string) (parts : list string) (part : string) :
  join sep (parts ++ [part])
  = match parts with
    | [] => part
    | _ => join sep parts +:+ sep +:+ part
    end.
Proof.
  induction parts as [|p parts IH]; [done|].
  destruct parts as [|q parts]; [done|].
  change (join sep ((p :: q :: parts) ++ [part]))
    with (p +:+ sep +:+ join sep ((q :: parts) ++ [part])).
  rewrite IH.
  change (join sep (p :: q :: parts)) with (p +:+ sep +:+ join sep (q :: parts)).
  by rewrite !append_assoc.
Qed.

(** ** Persona utilities *)

Section PersonaFacts.

Context {U : Unicode}.

Lemma cell_delete_ne (row : Row) (removed key : string) :
  removed ≠ key → cell (delete removed row) key = cell row key.
Proof. intros Hne. unfold cell. by rewrite lookup_delete_ne. Qed.

Lemma cell_delete_eq (row : Row) (key : string) :
  cell (delete key row) key = inr EmptyString.
Proof. unfold cell. by rewrite lookup_delete_eq. Qed.

(** X1: The age of a row is used only together with a role: in a row whose
    role is blank, an age cell that holds a text has no effect on the
    description.  (An age cell that is [None], in a line of the file cut
    short before that column, makes the function raise.) *)
Theorem build_description_age_needs_role (row : Row) :
  cell row "role" = inr EmptyString →
  row !! "age" ≠ Some None →
  _build_description row = _build_description (delete "age" row)
  ∧ (∀ short : Row,
       short !! "age" = Some None → _build_description short = inl AttributeError).
Proof.
  intros Hrole Hage. split.
  - unfold _build_description, description_parts.
    rewrite cell_delete_eq, !cell_delete_ne by done. rewrite Hrole.
    unfold cell at 1. destruct (row !! "age") as [[age|]|]; [|done|done].
    simpl. by rewrite andb_false_r.
  - intros short Hshort. unfold _build_description, description_parts.
    unfold cell at 1. by rewrite Hshort.
Qed.

(** The parts of a row with a description: those of the row without it,
    then the description. *)
Lemma description_parts_description (row : Row) (text : string) :
  cell row "description" = inr text →
  text ≠ EmptyString →
  description_parts row
  = match description_parts (delete "description" row) with
    | inl e => inl e
    | inr parts => inr (parts ++ [text])
    end.
Proof.
  intros Hdesc Htext. unfold description_parts.
  rewrite cell_delete_eq, !cell_delete_ne by done. rewrite Hdesc.
  destruct (cell row "age") as [e|age]; [done|].
  destruct (cell row "role") as [e|role]; [done|].
  destruct (cell row "context") as [e|context]; [done|].
  destruct (cell row "goals") as [e|goals]; [done|].
  destruct (cell row "pain_points") as [e|pain_points]; [done|].
  destruct (cell row "tech_savvy") as [e|tech]; [done|].
  f_equal. unfold append_if at 1. unfold truthy at 1.
  rewrite bool_decide_eq_false_2 by done. simpl.
  unfold append_if at 5. simpl. done.
Qed.

(** X2: An explicit description is not a fallback: whenever the row has one,
    it is appended after the parts made from the other columns, and it is
    the whole description only when there is no other part. *)
Theorem build_description_appends_description (row : Row) (text : string) :
  cell row "description" = inr text →
  text ≠ EmptyString →
  _build_description row
  = match description_parts (delete "description" row) with
    | inl e => inl e
    | inr [] => inr text
    | inr parts => inr (join "; " parts +:+ "; " +:+ text)
    end.
Proof.
  intros Hdesc Htext. unfold _build_description.
  rewrite (description_parts_description row text Hdesc Htext).
  destruct (description_parts (delete "description" row)) as [e|parts];
    [done|].
  rewrite join_snoc. by destruct parts.
Qed.

Lemma add_rows_names (personas : list Persona) (rows : list Row)
    (loaded : list Persona) :
  add_rows personas rows = inr loaded →
  ∃ names,
    Forall2 (λ row name, cell row "name" = inr name) rows names
    ∧ map p_name loaded
      = map p_name personas ++ filter (λ name, name ≠ EmptyString) names.
Proof.
  revert personas. induction rows as [|row rows IH]; intros personas; simpl.
  { intros [= <-]. exists []. split; [constructor|]. by rewrite app_nil_r. }
  unfold add_row.
  destruct (cell row "name") as [e|name] eqn:Hname; [done|].
  unfold truthy. destruct (decide (name = EmptyString)) as [Hblank|Hblank].
  - rewrite bool_decide_eq_true_2 by done. simpl.
    intros (names & Hnames & Hloaded)%IH.
    exists (name :: names). split; [by constructor|].
    rewrite filter_cons, decide_False by (by intros H; apply H). done.
  - rewrite bool_decide_eq_false_2 by done. simpl.
    destruct (_build_description row) as [e|description]; [done|].
    intros (names & Hnames & Hloaded)%IH.
    exists (name :: names). split; [by constructor|].
    rewrite filter_cons, decide_True by done.
    rewrite Hloaded, map_app. simpl. by rewrite <- app_assoc.
Qed.

(** X3: The loader keeps the rows that have a name, in file order, under
    their stripped names: when it returns, every row of the file has a
    name cell that holds a text, the names of the loaded personas are
    those cells stripped, the blank ones left out, and so every loaded
    persona has a name that is not empty. *)
Theorem load_personas_names (csv_files : gmap string (list Row))
    (path : string) (personas : list Persona) :
  load_personas_from_csv csv_files path = inr personas →
  ∃ rows names,
    csv_files !! path = Some rows
    ∧ Forall2 (λ row name,
                 ∃ text, default (Some EmptyString) (row !! "name") = Some text
                         ∧ name = strip text)
        rows names
    ∧ map p_name personas = filter (λ name, name ≠ EmptyString) names
    ∧ Forall (λ p, p_name p ≠ EmptyString) personas.
Proof.
  unfold load_personas_from_csv.
  destruct (csv_files !! path) as [rows|]; [|done].
  intros (names & Hnames & Hloaded)%add_rows_names. simpl in Hloaded.
  exists rows, names. split; [done|]. split; [|split; [done|]].
  - eapply Forall2_impl; [exact Hnames|]. intros row name. unfold cell.
    destruct (default (Some EmptyString) (row !! "name")) as [text|]; [|done].
    intros [= <-]. by exists text.
  - apply Forall_forall. intros p Hp.
    assert (p_name p ∈ map p_name personas) as Hin.
    { apply list_elem_of_fmap. by exists p. }
    rewrite Hloaded in Hin. by apply list_elem_of_filter in Hin as [? _].
Qed.

End PersonaFacts.

Section PersonaRuns.

Local Existing Instance letters_only.

Lemma build_description_age_needs_role_witness :
  cell
    {["age" := Some "26"; "context" := Some " runs marathons "]} "role"
  = inr EmptyString
  ∧ ({["age" := Some "26"; "context" := Some " runs marathons "]} : Row)
    !! "age" ≠ Some None
  ∧ _build_description
      {["age" := Some "26"; "context" := Some " runs marathons "]}
    = inr "runs marathons".
Proof.
  assert (cell
            {["age" := Some "26"; "context" := Some " runs marathons "]}
            "role" = inr EmptyString) as H1 by (vm_compute; reflexivity).
  assert (({["age" := Some "26"; "context" := Some " runs marathons "]} : Row)
          !! "age" ≠ Some None) as H2 by (vm_compute; discriminate).
  split; [exact H1|]. split; [exact H2|].
  rewrite (proj1 (build_description_age_needs_role
                    {["age" := Some "26"; "context" := Some " runs marathons "]}
                    H1 H2)).
  vm_compute. reflexivity.
Defined.

Lemma build_description_appends_description_witness :
  cell
    {["role" := Some "runner"; "description" := Some "likes data"]}
    "description"
  = inr "likes data"
  ∧ "likes data" ≠ EmptyString
  ∧ _build_description
      {["role" := Some "runner"; "description" := Some "likes data"]}
    = inr "runner; likes data".
Proof.
  assert (cell
            {["role" := Some "runner"; "description" := Some "likes data"]}
            "description" = inr "likes data") as H1
    by (vm_compute; reflexivity).
  assert ("likes data" ≠ EmptyString) as H2 by discriminate.
  split; [exact H1|]. split; [exact H2|].
  rewrite (build_description_appends_description
             {["role" := Some "runner"; "description" := Some "likes data"]}
             "likes data" H1 H2).
  vm_compute. reflexivity.
Defined.

Lemma load_personas_names_witness :
  load_personas_from_csv
    {["personas.csv" :=
        [{["name" := Some " Alice "; "role" := Some "runner"]};
         {["name" := Some "  "; "role" := Some "ghost"]};
         {["name" := Some "Bob"]}]]}
    "personas.csv"
  = inr [mkPersona "Alice" "runner" None None; mkPersona "Bob" EmptyString None None]
  ∧ ∃ names : list string,
      map p_name
        [mkPersona "Alice" "runner" None None;
         mkPersona "Bob" EmptyString None None]
      = filter (λ name, name ≠ EmptyString) names.
Proof.
  assert (load_personas_from_csv
            {["personas.csv" :=
                [{["name" := Some " Alice "; "role" := Some "runner"]};
                 {["name" := Some "  "; "role" := Some "ghost"]};
                 {["name" := Some "Bob"]}]]}
            "personas.csv"
          = inr [mkPersona "Alice" "runner" None None;
                 mkPersona "Bob" EmptyString None None]) as H
    by (vm_compute; reflexivity).
  split; [exact H|].
  destruct (load_personas_names _ _ _ H) as (rows & names & _ & _ & Hnames & _).
  exists names. exact Hnames.
Defined.

(** A line of the file cut short before the name column stops the
    loader. *)
Example load_personas_short_row :
  load_personas_from_csv
    {["personas.csv" := [{["age" := Some "26"; "name" := None]}]]}
    "personas.csv"
  = inl AttributeError.
Proof. reflexivity. Qed.

End PersonaRuns.

(** ** Interview configuration *)

Lemma jlookup_app_l (key : string) (fields extra : list (string * Json)) :
  is_Some (jlookup key fields) →
  jlookup key (fields ++ extra) = jlookup key fields.
Proof.
  induction fields as [|[k v] fields IH]; simpl.
  - by intros [? ?].
  - destruct (bool_decide (k = key)); [done|]. apply IH.
Qed.

Lemma jlookup_app_r (key : string) (fields extra : list (string * Json)) :
  jlookup key fields = None →
  jlookup key (fields ++ extra) = jlookup key extra.
Proof.
  induction fields as [|[k v] fields IH]; simpl; [done|].
  destruct (bool_decide (k = key)); [done|]. apply IH.
Qed.

Lemma jhas_true (key : string) (fields : list (string * Json)) :
  jhas key fields = true ↔ is_Some (jlookup key fields).
Proof. unfold jhas. apply bool_decide_eq_true. Qed.

Lemma jhas_false (key : string) (fields : list (string * Json)) :
  jhas key fields = false ↔ jlookup key fields = None.
Proof.
  unfold jhas. rewrite bool_decide_eq_false.
  destruct (jlookup key fields); split; try done.
  intros H. exfalso. apply H. by eexists.
Qed.

Lemma check_feature_None (i : nat) (feature : Json) :
  check_feature i feature = None → readable_feature feature.
Proof.
  unfold check_feature, readable_feature.
  destruct feature as [| | | | |?|fields]; try done.
  destruct (jhas "topic" fields) eqn:Htopic; [|done].
  destruct (jhas "core_questions" fields) eqn:Hcore; [|done]. simpl.
  apply jhas_true in Htopic as [topic Htopic].
  apply jhas_true in Hcore as [core Hcore]. rewrite Hcore. simpl.
  destruct core; try done. intros _. by exists fields, topic, items.
Qed.

Lemma check_feature_readable (i : nat) (feature : Json) :
  readable_feature feature → check_feature i feature = None.
Proof.
  intros (fields & topic & core & -> & Htopic & Hcore). simpl.
  unfold jhas. rewrite Htopic, Hcore. simpl. done.
Qed.

Lemma check_features_None (i : nat) (features : list Json) :
  check_features i features = None ↔ Forall readable_feature features.
Proof.
  revert i. induction features as [|feature features IH]; intros i; simpl.
  { split; [by constructor|done]. }
  destruct (check_feature i feature) eqn:Hcheck.
  - split; [done|]. intros [Hf _]%Forall_cons.
    by rewrite (check_feature_readable i) in Hcheck.
  - rewrite IH. split.
    + intros Hrest. constructor; [|done]. by eapply check_feature_None.
    + by intros [_ ?]%Forall_cons.
Qed.

(** X4: What a loaded configuration is, so that the main program can read
    it: an object that has ["max_followups"]; when it has ["features"],
    these are a list of objects that each have a topic and a list of core
    questions; otherwise it has exactly a truthy topic, a list of core
    questions and ["max_followups"]. *)
Theorem load_interview_config_shape (json_files : gmap string (option Json))
    (path : string) (config : Json) :
  load_interview_config json_files path = inr config →
  ∃ fields,
    config = JDict fields
    ∧ is_Some (jlookup "max_followups" fields)
    ∧ (is_Some (jlookup "features" fields) →
       ∃ features,
         jlookup "features" fields = Some (JList features)
         ∧ Forall readable_feature features)
    ∧ (jlookup "features" fields = None →
       ∃ topic core_questions max_followups,
         fields = [("topic", topic); ("core_questions", JList core_questions);
                   ("max_followups", max_followups)]
         ∧ json_truthy topic = true).
Proof.
  unfold load_interview_config.
  destruct (json_files !! path) as [[data|]|]; [|done..].
  destruct data as [| | | | |?|fields]; try done.
  destruct (jhas "features" fields) eqn:Hfeatures.
  - apply jhas_true in Hfeatures as [features Hfeatures].
    rewrite Hfeatures. simpl.
    destruct features as [| | | | |features|]; try done.
    destruct (check_features 0 features) eqn:Hcheck; [done|].
    apply check_features_None in Hcheck.
    destruct (jhas "max_followups" fields) eqn:Hmax; simpl; intros [= <-].
    + exists fields. split; [done|]. split; [by apply jhas_true|].
      split; [by exists features|]. by rewrite Hfeatures.
    + apply jhas_false in Hmax.
      exists (fields ++ [("max_followups", JInt 2)]). split; [done|].
      split; [rewrite jlookup_app_r by done; by eexists|].
      split.
      * intros _. exists features.
        rewrite jlookup_app_l by (by eexists). done.
      * rewrite jlookup_app_l by (by eexists). by rewrite Hfeatures.
  - apply jhas_false in Hfeatures.
    destruct (json_truthy (default JNull (jlookup "topic" fields)))
      eqn:Htopic; [|done]. simpl.
    destruct (default JNull (jlookup "core_questions" fields))
      as [| | | | |core|] eqn:Hcore; try done.
    simpl. intros [= <-]. eexists. split; [done|].
    split; [simpl; by eexists|]. split; [by intros [? [=]]|].
    intros _. by eexists _, _, _.
Qed.

(** X5: A loaded configuration loads again as itself: the loader accepts
    its own output and changes nothing in it. *)
Theorem load_interview_config_idempotent
    (json_files json_files' : gmap string (option Json))
    (path path' : string) (config : Json) :
  load_interview_config json_files path = inr config →
  json_files' !! path' = Some (Some config) →
  load_interview_config json_files' path' = inr config.
Proof.
  intros Hload Hfile.
  apply load_interview_config_shape in Hload
    as (fields & -> & Hmax & Hbatch & Hsingle).
  unfold load_interview_config. rewrite Hfile.
  destruct (jlookup "features" fields) as [v|] eqn:Hfeatures.
  - destruct Hbatch as (features & [= ->] & Hall); [by eexists|].
    rewrite (proj2 (jhas_true _ _)) by (rewrite Hfeatures; by eexists).
    simpl.
    rewrite (proj2 (check_features_None 0 features) Hall).
    by rewrite (proj2 (jhas_true _ _) Hmax).
  - rewrite (proj2 (jhas_false _ _) Hfeatures).
    destruct (Hsingle eq_refl) as (topic & core & mf & -> & Htopic).
    simpl. by rewrite Htopic.
Qed.

(** X6: The check stops at the first feature that is not readable and names
    its index: the features before it pass, and the ones after it are not
    looked at. *)
Theorem load_interview_config_first_bad_feature
    (json_files : gmap string (option Json)) (path : string)
    (fields : list (string * Json)) (good : list Json) (bad : Json)
    (rest : list Json) (e : LoadError) :
  json_files !! path = Some (Some (JDict fields)) →
  jlookup "features" fields = Some (JList (good ++ bad :: rest)) →
  Forall readable_feature good →
  check_feature (length good) bad = Some e →
  load_interview_config json_files path = inl e.
Proof.
  intros Hfile Hfeatures Hgood Hbad.
  unfold load_interview_config. rewrite Hfile.
  rewrite (proj2 (jhas_true _ _)) by (rewrite Hfeatures; by eexists).
  rewrite Hfeatures. simpl.
  assert (∀ i, check_features i (good ++ bad :: rest)
               = check_features (i + length good) (bad :: rest)) as Hskip.
  { clear -Hgood. induction Hgood as [|f good Hf _ IH]; intros i.
    - simpl. by rewrite Nat.add_0_r.
    - simpl. rewrite (check_feature_readable i f Hf), IH.
      by rewrite Nat.add_succ_r. }
  rewrite Hskip. simpl. by rewrite Hbad.
Qed.

Lemma load_interview_config_shape_witness :
  load_interview_config {["cfg.json" := Some legacy_config]} "cfg.json"
  = inr loaded_legacy_config
  ∧ ∃ fields,
      loaded_legacy_config = JDict fields
      ∧ is_Some (jlookup "max_followups" fields).
Proof.
  assert (load_interview_config {["cfg.json" := Some legacy_config]} "cfg.json"
          = inr loaded_legacy_config) as H by (vm_compute; reflexivity).
  split; [exact H|].
  destruct (load_interview_config_shape _ _ _ H) as (fields & Heq & Hmax & _).
  exists fields. split; [exact Heq|exact Hmax].
Defined.

Lemma load_interview_config_idempotent_witness :
  load_interview_config {["cfg.json" := Some legacy_config]} "cfg.json"
  = inr loaded_legacy_config
  ∧ ({["out.json" := Some loaded_legacy_config]} : gmap string (option Json))
    !! "out.json" = Some (Some loaded_legacy_config)
  ∧ load_interview_config {["out.json" := Some loaded_legacy_config]} "out.json"
    = inr loaded_legacy_config.
Proof.
  assert (load_interview_config {["cfg.json" := Some legacy_config]} "cfg.json"
          = inr loaded_legacy_config) as H1 by (vm_compute; reflexivity).
  assert (({["out.json" := Some loaded_legacy_config]}
           : gmap string (option Json)) !! "out.json"
          = Some (Some loaded_legacy_config)) as H2
    by (vm_compute; reflexivity).
  split; [exact H1|]. split; [exact H2|].
  exact (load_interview_config_idempotent _ _ _ _ _ H1 H2).
Defined.

Lemma load_interview_config_first_bad_feature_witness :
  ({["cfg.json" := Some broken_batch_config]} : gmap string (option Json))
  !! "cfg.json"
  = Some (Some (JDict [("features", JList ([good_feature] ++ JStr "oops" :: [JNull]))]))
  ∧ Forall readable_feature [good_feature]
  ∧ check_feature (length [good_feature]) (JStr "oops")
    = Some (ValueError "Feature 1 must be an object")
  ∧ load_interview_config {["cfg.json" := Some broken_batch_config]} "cfg.json"
    = inl (ValueError "Feature 1 must be an object").
Proof.
  assert (({["cfg.json" := Some broken_batch_config]}
           : gmap string (option Json)) !! "cfg.json"
          = Some (Some (JDict [("features",
                                JList ([good_feature] ++ JStr "oops" :: [JNull]))])))
    as H1 by (vm_compute; reflexivity).
  assert (jlookup "features"
            [("features", JList ([good_feature] ++ JStr "oops" :: [JNull]))]
          = Some (JList ([good_feature] ++ JStr "oops" :: [JNull]))) as H2
    by reflexivity.
  assert (Forall readable_feature [good_feature]) as H3.
  { constructor; [|constructor].
    exists [("topic", JStr "T1"); ("core_questions", JList [JStr "Q1"])],
      (JStr "T1"), [JStr "Q1"]. split; [reflexivity|]. split; reflexivity. }
  assert (check_feature (length [good_feature]) (JStr "oops")
          = Some (ValueError "Feature 1 must be an object")) as H4
    by reflexivity.
  split; [exact H1|]. split; [exact H3|]. split; [exact H4|].
  exact (load_interview_config_first_bad_feature _ _ _ _ _ _ _ H1 H2 H3 H4).
Defined.

(** ** Display styles *)

Lemma add_styles_not_in (idx : nat) (personas : list Persona)
    (styles : gmap string Style) (name : string) :
  name ∉ map p_name personas →
  add_styles idx personas styles !! name = styles !! name.
Proof.
  revert idx styles. induction personas as [|p ps IH]; intros idx styles Hname;
    [done|].
  simpl in *. apply not_elem_of_cons in Hname as [Hne Hname].
  rewrite IH by done. by rewrite lookup_insert_ne.
Qed.

Lemma add_styles_is_Some (idx : nat) (personas : list Persona)
    (styles : gmap string Style) (name : string) :
  name ∈ map p_name personas ∨ is_Some (styles !! name) →
  is_Some (add_styles idx personas styles !! name).
Proof.
  revert idx styles. induction personas as [|p ps IH]; intros idx styles Hname.
  { simpl in *. destruct Hname as [Hname|Hname]; [|done].
    by apply elem_of_nil in Hname. }
  simpl. apply IH. simpl in Hname.
  destruct (decide (name = p_name p)) as [->|Hne].
  - right. rewrite lookup_insert_eq. by eexists.
  - destruct Hname as [Hname|Hname].
    + apply elem_of_cons in Hname as [?|?]; [done|by left].
    + right. by rewrite lookup_insert_ne.
Qed.

Lemma add_styles_app (idx : nat) (before after : list Persona)
    (styles : gmap string Style) :
  add_styles idx (before ++ after) styles
  = add_styles (idx + length before) after (add_styles idx before styles).
Proof.
  revert idx styles. induction before as [|p ps IH]; intros idx styles.
  { simpl. by rewrite Nat.add_0_r. }
  simpl. rewrite IH. by rewrite Nat.add_succ_r.
Qed.

(** X7: Every name that [run_interview] draws has a style: each persona of
    the roster, the facilitator and the default.  The last two are fixed,
    whatever the roster: a persona called ["Facilitator"] or ["default"] is
    drawn in that fixed style, not in its own. *)
Theorem generate_styles_covers (personas : list Persona) :
  _generate_styles personas !! "Facilitator" = Some facilitator_style
  ∧ _generate_styles personas !! "default" = Some default_style
  ∧ ∀ p, p ∈ personas →
      ∃ style,
        _generate_styles personas !! p_name p = Some style
        ∧ resolve_style (_generate_styles personas) (p_name p) = style.
Proof.
  unfold _generate_styles. split; [|split].
  - rewrite lookup_insert_ne by done. by rewrite lookup_insert_eq.
  - by rewrite lookup_insert_eq.
  - intros p Hp.
    assert (is_Some
              ((<["default" := default_style]>
                  (<["Facilitator" := facilitator_style]>
                     (add_styles 0 personas ∅))) !! p_name p)) as [style Hstyle].
    { destruct (decide ("default" = p_name p)) as [<-|Hd].
      { rewrite lookup_insert_eq. by eexists. }
      rewrite lookup_insert_ne by done.
      destruct (decide ("Facilitator" = p_name p)) as [<-|Hf].
      { rewrite lookup_insert_eq. by eexists. }
      rewrite lookup_insert_ne by done.
      apply add_styles_is_Some. left. apply list_elem_of_fmap. by exists p. }
    exists style. split; [done|]. unfold resolve_style. by rewrite Hstyle.
Qed.

(** X8: The style of a persona comes from its place in the roster: its own
    colour and emoji when the row gave them, else the entries of the two
    palettes at its index.  When several personas share a name, the last
    of them decides. *)
Theorem generate_styles_last_wins
    (before : list Persona) (p : Persona) (after : list Persona) :
  p_name p ∉ map p_name after →
  p_name p ≠ "Facilitator" →
  p_name p ≠ "default" →
  _generate_styles (before ++ p :: after) !! p_name p
  = Some (mkStyle
            (get_or_else (p_color p)
               (default EmptyString (base_colors !! (length before mod 10))))
            (get_or_else (p_emoji p)
               (default EmptyString
                  (default_emoji_cycle !! (length before mod 10))))).
Proof.
  intros Hafter Hf Hd. unfold _generate_styles.
  rewrite !lookup_insert_ne by done.
  rewrite add_styles_app. simpl.
  rewrite add_styles_not_in by done. by rewrite lookup_insert_eq.
Qed.

Lemma generate_styles_last_wins_witness :
  (p_name bob ∉ map p_name ([] : list Persona))
  ∧ p_name bob ≠ "Facilitator"
  ∧ p_name bob ≠ "default"
  ∧ _generate_styles ([alice] ++ bob :: []) !! p_name bob
    = Some (mkStyle "green" "🗣️").
Proof.
  assert (p_name bob ∉ map p_name []) as H1 by apply not_elem_of_nil.
  assert (p_name bob ≠ "Facilitator") as H2 by discriminate.
  assert (p_name bob ≠ "default") as H3 by discriminate.
  split; [exact H1|]. split; [exact H2|]. split; [exact H3|].
  exact (generate_styles_last_wins [alice] bob [] H1 H2 H3).
Defined.

(** ** Generation requests *)

Section RequestFacts.

Context {E : Type} {U : Unicode} (env : Env E).
Variables (topic : string) (personas : list Persona)
          (core_questions : list string) (max_followups : Z).

Lemma console_out_requests output w :
  requests_since w (console_out env output w) = 0
  ∧ ∀ u w', console_out env output w = Ok u w' → w' = w.
Proof.
  unfold console_out. destruct (console_print env _ _); simpl.
  - split; [lia|done].
  - split; [lia|]. by intros u w' [= _ <-].
Qed.

Lemma ask_personas_requests panel question t w :
  requests_since w (ask_personas env topic personas panel question t w)
  ≤ length panel
  ∧ ∀ t' w', ask_personas env topic personas panel question t w = Ok t' w' →
             calls w' = calls w + length panel.
Proof.
  revert t w. induction panel as [|[agent persona] panel IH]; intros t w.
  { simpl. split; [lia|]. intros t' w' [= <- <-]. lia. }
  simpl. unfold bind, ask_persona, invoke, console_out.
  destruct (gen_persona env _ _ _) as [e|text]; simpl; [split; [lia|done]|].
  destruct (console_print env _ _); simpl; [split; [lia|done]|].
  match goal with
  | |- context [ask_personas env topic personas panel question ?t1 ?w1] =>
    destruct (IH t1 w1) as [Hle Heq];
    destruct (ask_personas env topic personas panel question t1 w1)
      as [t2 w2|e w2|] eqn:Hask
  end; simpl in *.
  - split; [lia|]. intros t' w' [= <- <-]. rewrite (Heq _ _ eq_refl). lia.
  - split; [lia|done].
  - split; [lia|done].
Qed.

Lemma iteration_requests facilitator persona_agents st w :
  length persona_agents = length personas →
  requests_since w
    (iteration env topic personas core_questions max_followups facilitator
       persona_agents st w)
  ≤ 1 + length personas
  ∧ ∀ st' w',
      iteration env topic personas core_questions max_followups facilitator
        persona_agents st w = Ok (Continue st') w' →
      calls w' = calls w + (1 + length personas).
Proof.
  intros Hlen. unfold iteration, bind, invoke, console_out.
  destruct (gen_facilitator env _ _ _) as [e|fac_out]; simpl;
    [split; [lia|done]|].
  destruct (should_end fac_out); simpl.
  { destruct (console_print env _ _); simpl; split; (lia || done). }
  destruct (console_print env _ _); simpl; [split; [lia|done]|].
  match goal with
  | |- context [ask_personas env topic personas ?panel ?q ?t1 ?w1] =>
    destruct (ask_personas_requests panel q t1 w1) as [Hle Heq];
    destruct (ask_personas env topic personas panel q t1 w1)
      as [t2 w2|e w2|] eqn:Hask
  end; rewrite length_zip in *; simpl in *.
  - specialize (Heq _ _ eq_refl).
    destruct (stop_condition _ _ _ _); simpl.
    + split; [lia|done].
    + split; [lia|]. intros st' w' [= <- <-]. lia.
  - split; [lia|done].
  - split; [lia|done].
Qed.

Lemma interview_loop_requests facilitator persona_agents fuel st w :
  length persona_agents = length personas →
  length (asked_questions st) < round_bound core_questions max_followups →
  requests_since w
    (interview_loop env topic personas core_questions max_followups fuel
       facilitator persona_agents st w)
  ≤ (round_bound core_questions max_followups - length (asked_questions st))
    * (1 + length personas).
Proof.
  intros Hlen. revert st w. induction fuel as [|fuel IH]; intros st w Hasked.
  { simpl. apply Nat.le_0_l. }
  assert (∃ k, round_bound core_questions max_followups
               - length (asked_questions st) = S k) as [k Hk].
  { exists (round_bound core_questions max_followups
            - length (asked_questions st) - 1). lia. }
  rewrite Hk. simpl interview_loop. unfold bind.
  destruct (iteration_requests facilitator persona_agents st w Hlen)
    as [Hle Heq].
  destruct (iteration env topic personas core_questions max_followups
              facilitator persona_agents st w) as [step w1|e w1|] eqn:Hit;
    simpl in *; [|lia|lia].
  destruct step as [|st'|st']; simpl; [lia|lia|].
  specialize (Heq _ _ eq_refl).
  apply iteration_Ok in Hit as [_ [(q & answers & _ & _ & Hq & _) Hstop]];
    [|done].
  unfold stop_condition in Hstop. apply orb_false_iff in Hstop as [_ Hstop].
  apply Z.leb_gt in Hstop.
  assert (length (asked_questions st') = S (length (asked_questions st)))
    as Hasked'.
  { rewrite Hq, length_app. simpl. lia. }
  assert (length (asked_questions st')
          < round_bound core_questions max_followups) as Hlt.
  { unfold round_bound. lia. }
  specialize (IH st' w1 Hlt).
  assert (round_bound core_questions max_followups
          - length (asked_questions st') = k) as Hk' by lia.
  rewrite Hk' in IH.
  destruct (interview_loop env topic personas core_questions max_followups
              fuel facilitator persona_agents st' w1) as [rounds w2|e w2|];
    simpl in *; lia.
Qed.

Lemma final_analysis_requests summarizer sentiment_agent t w :
  requests_since w
    (final_analysis env topic personas summarizer sentiment_agent t w)
  ≤ 2.
Proof.
  destruct (final_analysis env topic personas summarizer sentiment_agent t w)
    as [result w'|e w'|] eqn:H; simpl; [| |lia].
  - apply final_analysis_Ok in H as (_ & _ & _ & _ & Hcalls & _). lia.
  - apply final_analysis_Raised in H as [Hcalls _]. lia.
Qed.

(** X9: The cost of an interview: with a non-empty list of core questions
    and [max_followups >= 0], an interview makes at most
    [(len(core_questions) + max_followups) * (1 + len(personas)) + 2]
    generation requests, whether it returns or raises. *)
Theorem run_interview_request_bound (fuel : nat) (w : World) :
  core_questions ≠ [] →
  (0 ≤ max_followups)%Z →
  requests_since w
    (run_interview env topic personas core_questions max_followups fuel w)
  ≤ (length core_questions + Z.to_nat max_followups) * (1 + length personas)
    + 2.
Proof.
  intros Hcore Hmax.
  assert (round_bound core_questions max_followups
          = length core_questions + Z.to_nat max_followups) as Hbound.
  { unfold round_bound. lia. }
  assert (0 < length core_questions) as Hpos.
  { destruct core_questions; [done|simpl; lia]. }
  pose proof (interview_loop_requests
                (make_facilitator_agent topic core_questions max_followups)
                (make_persona_agents personas) fuel initial_state w
                (make_persona_agents_length personas)) as Hloop.
  rewrite Hbound in Hloop. simpl in Hloop. specialize (Hloop ltac:(lia)).
  assert (requests_since w
            (interview_rounds env topic personas core_questions max_followups
               fuel w)
          ≤ (length core_questions + Z.to_nat max_followups)
            * (1 + length personas)) as Hrounds.
  { destruct (interview_rounds_cases env topic personas core_questions
                max_followups fuel w) as [(e & _ & ->)|(_ & _ & ->)].
    - simpl. lia.
    - rewrite Nat.sub_0_r in Hloop. exact Hloop. }
  unfold run_interview, bind.
  destruct (interview_rounds env topic personas core_questions max_followups
              fuel w) as [rounds w1|e w1|]; simpl in *; [|lia..].
  pose proof (final_analysis_requests make_summarizer_agent
                make_sentiment_agent
                (transcript (final_state initial_state rounds)) w1) as Hfinal.
  destruct (final_analysis env topic personas make_summarizer_agent
              make_sentiment_agent
              (transcript (final_state initial_state rounds)) w1)
    as [result w2|e w2|]; simpl in *; lia.
Qed.

End RequestFacts.

Section RequestRuns.

Local Existing Instance letters_only.

Lemma run_interview_request_bound_witness :
  ["Q1"] ≠ ([] : list string)
  ∧ (0 ≤ 2)%Z
  ∧ requests_since empty_world
      (run_interview env_one_round "T" [alice; bob] ["Q1"] 2 5 empty_world)
    ≤ (length ["Q1"] + Z.to_nat 2) * (1 + length [alice; bob]) + 2.
Proof.
  assert (["Q1"] ≠ ([] : list string)) as H1 by discriminate.
  assert (0 ≤ 2)%Z as H2 by lia.
  split; [exact H1|]. split; [exact H2|].
  exact (run_interview_request_bound env_one_round "T" [alice; bob] ["Q1"] 2 5
           empty_world H1 H2).
Defined.

End RequestRuns.

(** ** A round seen by its personas *)

Lemma is_peer_answer_record (persona_name name text : string) :
  PersonaView.is_peer_answer persona_name (answer_record name text) = true
  ↔ name ≠ persona_name.
Proof.
  unfold PersonaView.is_peer_answer, answer_record, get_is. simpl.
  rewrite negb_true_iff, bool_decide_eq_false. split.
  - intros Hne ->. by apply Hne.
  - intros Hne [= ->]. by apply Hne.
Qed.

(** The answers of a round so far, as pairs of a persona and its answer. *)
Lemma answers_not_questions (given : list (Persona * string))
    (question : string) :
  Forall (λ msg, PersonaView.is_other_question question msg = false)
    (map (λ pt, answer_record (p_name pt.1) pt.2) given).
Proof. induction given as [|pt given IH]; by constructor. Qed.

Lemma answers_peers (persona_name : string) (given : list (Persona * string)) :
  filter (λ msg, PersonaView.is_peer_answer persona_name msg = true)
    (map (λ pt, answer_record (p_name pt.1) pt.2) given)
  = map (λ pt, answer_record (p_name pt.1) pt.2)
      (filter (λ pt, p_name pt.1 ≠ persona_name) given).
Proof.
  induction given as [|pt given IH]; [done|].
  simpl. rewrite !filter_cons.
  destruct (decide (p_name pt.1 = persona_name)) as [Heq|Hne].
  - rewrite decide_False by (by rewrite is_peer_answer_record; intros H).
    rewrite decide_False by (by intros H). apply IH.
  - rewrite decide_True by (by rewrite is_peer_answer_record).
    rewrite decide_True by done. simpl. by rewrite IH.
Qed.

(** When a question is asked for the first time, the scan gathers the
    answers given so far in this round by the personas with another
    name. *)
Lemma responses_first_asking (persona_name question : string)
    (earlier : list Msg) (given : list (Persona * string)) :
  Forall (λ msg, PersonaView.is_current_question question msg = false) earlier →
  PersonaView.responses_for_current_question persona_name question
    (earlier ++ question_record question
             :: map (λ pt, answer_record (p_name pt.1) pt.2) given)
  = map (λ pt, p_name pt.1 +:+ ": " +:+ pt.2)
      (filter (λ pt, p_name pt.1 ≠ persona_name) given).
Proof.
  intros Hearlier.
  rewrite <- (app_nil_r (map _ given)).
  rewrite (responses_of_split persona_name question earlier
             (question_record question)
             (map (λ pt, answer_record (p_name pt.1) pt.2) given) []).
  - rewrite answers_peers. by rewrite map_map.
  - done.
  - unfold PersonaView.is_current_question, question_record, get_is. simpl.
    by rewrite !bool_decide_eq_true_2.
  - apply answers_not_questions.
  - by left.
Qed.

Lemma round_answers_zip (personas : list Persona) (texts : list string) :
  round_answers personas texts
  = map (λ pt, answer_record (p_name pt.1) pt.2) (zip personas texts).
Proof.
  unfold round_answers. revert texts.
  induction personas as [|p ps IH]; intros [|text texts]; try done.
  simpl. by rewrite IH.
Qed.

Section RoundView.

Context {E : Type} {U : Unicode} (env : Env E).
Variables (topic : string) (personas : list Persona).

(** The prompt a persona is given in a round of a question asked for the
    first time, after the answers [given]. *)
Lemma first_asking_prompt (p : Persona) (question : string)
    (earlier : list Msg) (given : list (Persona * string)) :
  Forall (λ msg, PersonaView.is_current_question question msg = false) earlier →
  PersonaView.transcript_to_persona_prompt (p_name p) (p_description p)
    question
    (earlier ++ question_record question
             :: map (λ pt, answer_record (p_name pt.1) pt.2) given)
    topic
  = [system_msg "You are in a group interview.";
     user_msg
       (("You are " +:+ p_name p +:+ "." +:+ nl
         +:+ "Persona details: " +:+ p_description p +:+ nl +:+ nl
         +:+ "Interview topic: " +:+ topic +:+ nl +:+ nl
         +:+ "Current question: " +:+ question +:+ nl +:+ nl)
        +:+ match filter (λ pt, p_name pt.1 ≠ p_name p) given with
            | [] =>
              "You are the first to answer this question. Please provide your perspective."
              +:+ nl
            | shown =>
              "Other participants have already responded to this question:"
              +:+ nl +:+ nl
              +:+ concat_str
                    (map (λ pt, (p_name pt.1 +:+ ": " +:+ pt.2) +:+ nl +:+ nl)
                       shown)
              +:+ "Please provide your answer, and feel free to react to what others have said after giving your own perspective."
              +:+ nl
            end)].
Proof.
  intros Hearlier. unfold PersonaView.transcript_to_persona_prompt.
  rewrite responses_first_asking by done.
  unfold PersonaView.persona_prompt_text.
  destruct (filter _ given) as [|pt shown]; [done|].
  simpl map. by rewrite map_map.
Qed.

(** X10: When a question is asked for the first time, each persona is shown
    exactly what the round has gathered so far.  In a round that returns,
    after the records of the earlier rounds, none of which is a question
    with this text, the answer recorded for the persona at each place of
    the panel is the backend's reply to this request: the fixed system
    message and a user message that names the persona, its description,
    the topic and the question, and then lists the answers already given
    in this round by the personas with another name, in roster order, or
    says that the persona is the first to answer when there is none. *)
Theorem persona_view_first_asking
    (panel : list (Agent * Persona)) (question : string) (earlier : list Msg)
    (w : World) (t' : list Msg) (w' : World) :
  Forall (λ msg, PersonaView.is_current_question question msg = false) earlier →
  ask_personas env topic personas panel question
    (earlier ++ [question_record question]) w
  = Ok t' w' →
  ∃ texts,
    length texts = length panel
    ∧ t' = earlier ++ question_record question :: round_answers panel.*2 texts
    ∧ ∀ i agent p text,
        panel !! i = Some (agent, p) →
        texts !! i = Some text →
        gen_persona env (calls w + i) agent
          [system_msg "You are in a group interview.";
           user_msg
             (("You are " +:+ p_name p +:+ "." +:+ nl
               +:+ "Persona details: " +:+ p_description p +:+ nl +:+ nl
               +:+ "Interview topic: " +:+ topic +:+ nl +:+ nl
               +:+ "Current question: " +:+ question +:+ nl +:+ nl)
              +:+ match
                    filter (λ pt, p_name pt.1 ≠ p_name p)
                      (take i (zip panel.*2 texts))
                  with
                  | [] =>
                    "You are the first to answer this question. Please provide your perspective."
                    +:+ nl
                  | shown =>
                    "Other participants have already responded to this question:"
                    +:+ nl +:+ nl
                    +:+ concat_str
                          (map (λ pt,
                                  (p_name pt.1 +:+ ": " +:+ pt.2)
                                  +:+ nl +:+ nl)
                             shown)
                    +:+ "Please provide your answer, and feel free to react to what others have said after giving your own perspective."
                    +:+ nl
                  end)]
        = inr text.
Proof.
  intros Hearlier Hask.
  assert (∀ (given : list (Persona * string)) w,
    ask_personas env topic personas panel question
      (earlier ++ question_record question
               :: map (λ pt, answer_record (p_name pt.1) pt.2) given) w
    = Ok t' w' →
    ∃ texts,
      length texts = length panel
      ∧ t' = earlier ++ question_record question
                     :: map (λ pt, answer_record (p_name pt.1) pt.2)
                          (given ++ zip panel.*2 texts)
      ∧ ∀ i agent p text,
          panel !! i = Some (agent, p) →
          texts !! i = Some text →
          gen_persona env (calls w + i) agent
            (PersonaView.transcript_to_persona_prompt (p_name p)
               (p_description p) question
               (earlier ++ question_record question
                        :: map (λ pt, answer_record (p_name pt.1) pt.2)
                             (given ++ take i (zip panel.*2 texts)))
               topic)
          = inr text) as Hgeneral.
  { clear Hask w. induction panel as [|[agent persona] rest IH];
      intros given w; simpl.
    { intros [= <- <-]. exists []. split; [done|]. split.
      - by rewrite app_nil_r.
      - intros i agent p text Hi. by rewrite lookup_nil in Hi. }
    intros H. apply bind_Ok_inv in H as (out & w1 & Hrequest & H).
    apply invoke_Ok_inv in Hrequest as [Hrequest ->].
    apply bind_Ok_inv in H as (u & w2 & Hprint & H).
    apply console_out_Ok_inv in Hprint as [_ ->].
    replace ((earlier ++ question_record question
                      :: map (λ pt, answer_record (p_name pt.1) pt.2) given)
             ++ [answer_record (p_name persona) out])
      with (earlier ++ question_record question
                    :: map (λ pt, answer_record (p_name pt.1) pt.2)
                         (given ++ [(persona, out)])) in H
      by (rewrite map_app, <- app_assoc; done).
    apply IH in H as (texts & Hlen & -> & Hrest).
    exists (out :: texts). split; [simpl; by rewrite Hlen|]. split.
    { csimpl. by rewrite <- app_assoc. }
    intros [|i] agent' p text Hi Htext; simpl in Hi, Htext.
    - injection Hi as <- <-. injection Htext as <-.
      rewrite Nat.add_0_r. simpl. by rewrite app_nil_r.
    - specialize (Hrest i agent' p text Hi Htext). simpl in Hrest.
      replace (calls w + S i) with (S (calls w + i)) by lia.
      csimpl. rewrite <- app_assoc in Hrest. exact Hrest. }
  destruct (Hgeneral [] w Hask) as (texts & Hlen & -> & Hprompts).
  exists texts. split; [done|]. split.
  { by rewrite round_answers_zip. }
  intros i agent p text Hi Htext.
  rewrite <- (Hprompts i agent p text Hi Htext). f_equal.
  symmetry. by apply first_asking_prompt.
Qed.

End RoundView.

Section RoundViewRuns.

Local Existing Instance letters_only.

Lemma persona_view_first_asking_witness :
  Forall (λ msg, PersonaView.is_current_question "Q2" msg = false)
    (transcript round_one)
  ∧ ask_personas env_one_round "T" [alice; bob]
      (zip (make_persona_agents [alice; bob]) [alice; bob]) "Q2"
      (transcript round_one ++ [question_record "Q2"]) (mkWorld 4 ∅)
    = Ok (transcript round_one
          ++ question_record "Q2" :: round_answers [alice; bob] ["ok"; "ok"])
         (mkWorld 6 ∅)
  ∧ ∃ texts : list string,
      length texts
      = length (zip (make_persona_agents [alice; bob]) [alice; bob]).
Proof.
  assert (Forall (λ msg, PersonaView.is_current_question "Q2" msg = false)
            (transcript round_one)) as H1
    by (repeat constructor).
  assert (ask_personas env_one_round "T" [alice; bob]
            (zip (make_persona_agents [alice; bob]) [alice; bob]) "Q2"
            (transcript round_one ++ [question_record "Q2"]) (mkWorld 4 ∅)
          = Ok (transcript round_one
                ++ question_record "Q2"
                   :: round_answers [alice; bob] ["ok"; "ok"])
               (mkWorld 6 ∅)) as H2 by (vm_compute; reflexivity).
  split; [exact H1|]. split; [exact H2|].
  destruct (persona_view_first_asking env_one_round "T" [alice; bob]
              (zip (make_persona_agents [alice; bob]) [alice; bob]) "Q2"
              (transcript round_one) (mkWorld 4 ∅) _ (mkWorld 6 ∅) H1 H2)
    as (texts & Hlen & _).
  exists texts. exact Hlen.
Defined.

End RoundViewRuns.

(** ** The counters and the transcript *)

Lemma question_texts_app (t1 t2 : list Msg) :
  question_texts (t1 ++ t2) = question_texts t1 ++ question_texts t2.
Proof. unfold question_texts. apply omap_app. Qed.

Lemma question_texts_round (personas : list Persona) (question : string)
    (answers : list string) :
  question_texts (round_records personas question answers) = [question].
Proof.
  unfold round_records, question_texts. simpl. f_equal.
  unfold round_answers. revert answers.
  induction personas as [|p ps IH]; intros [|a answers]; simpl; try done.
Qed.

Lemma followups_among_snoc (core_questions asked : list string)
    (question : string) :
  followups_among core_questions (asked ++ [question])
  = followups_among core_questions asked
    + (if bool_decide (question ∉ core_questions) then 1 else 0).
Proof.
  unfold followups_among. rewrite filter_app, length_app, filter_cons.
  destruct (decide (question ∉ core_questions)) as [Hq|Hq].
  - by rewrite bool_decide_eq_true_2.
  - by rewrite bool_decide_eq_false_2.
Qed.

Lemma rounds_from_counters (personas : list Persona)
    (core_questions : list string) (max_followups : Z)
    (st : LoopState) (rounds : list LoopState) :
  followups_used st
  = Z.of_nat (followups_among core_questions (asked_questions st)) →
  asked_questions st = question_texts (transcript st) →
  rounds_from personas core_questions max_followups st rounds →
  Forall (λ st',
            followups_used st'
            = Z.of_nat (followups_among core_questions (asked_questions st'))
            ∧ asked_questions st' = question_texts (transcript st'))
         rounds.
Proof.
  revert st. induction rounds as [|st' rest IH]; intros st Hused Hasked Hrounds;
    [done|].
  destruct Hrounds as ((q & answers & _ & Ht & Hq & Hf) & _ & Hrest).
  assert (followups_used st'
          = Z.of_nat (followups_among core_questions (asked_questions st')))
    as Hused'.
  { rewrite Hf, Hq, followups_among_snoc, Hused. case_bool_decide; lia. }
  assert (asked_questions st' = question_texts (transcript st')) as Hasked'.
  { by rewrite Hq, Ht, question_texts_app, question_texts_round, Hasked. }
  constructor; [done|]. by apply (IH st').
Qed.

(** X11: The loop's two counters never drift from the transcript: after
    every round of a run that returns, [asked_questions] is the list of
    the texts of the question records, in order, and [followups_used] is
    the number of asked questions that are not core questions, a repeated
    follow-up counting each time it is asked. *)
Theorem loop_counters_agree {E} {U : Unicode} (env : Env E) (topic : string)
    (personas : list Persona) (core_questions : list string)
    (max_followups : Z) (fuel : nat) (w : World)
    (rounds : list LoopState) (w' : World) :
  interview_rounds env topic personas core_questions max_followups fuel w
  = Ok rounds w' →
  Forall (λ st,
            followups_used st
            = Z.of_nat (followups_among core_questions (asked_questions st))
            ∧ asked_questions st = question_texts (transcript st))
         rounds.
Proof.
  intros Hrun. apply interview_rounds_from in Hrun as [Hrounds _].
  by eapply rounds_from_counters; [| |exact Hrounds].
Qed.

Section CounterRuns.

Local Existing Instance letters_only.

Lemma loop_counters_agree_witness :
  interview_rounds env_one_round "T" [alice; bob] ["Q1"] 2 5 empty_world
  = Ok [round_one] (mkWorld 4 ∅)
  ∧ Forall (λ st,
              followups_used st
              = Z.of_nat (followups_among ["Q1"] (asked_questions st))
              ∧ asked_questions st = question_texts (transcript st))
           [round_one].
Proof.
  assert (interview_rounds env_one_round "T" [alice; bob] ["Q1"] 2 5
            empty_world = Ok [round_one] (mkWorld 4 ∅)) as H
    by (vm_compute; reflexivity).
  split; [exact H|].
  exact (loop_counters_agree env_one_round "T" [alice; bob] ["Q1"] 2 5
           empty_world [round_one] (mkWorld 4 ∅) H).
Defined.

End CounterRuns.

(** ** The documents made from a transcript *)

Lemma append_empty_r (s : string) : s +:+ EmptyString = s.
Proof.
  induction s as [|c s IH]; [done|].
  change (String c (s +:+ EmptyString) = String c s). by rewrite IH.
Qed.

Lemma substring_of_refl (s : string) : substring_of s s.
Proof. exists EmptyString, EmptyString. by rewrite append_empty_r. Qed.

Lemma substring_of_append_r (needle s1 s2 : string) :
  substring_of needle s2 → substring_of needle (s1 +:+ s2).
Proof.
  intros (before & after & ->). exists (s1 +:+ before), after.
  by rewrite !append_assoc.
Qed.

Lemma concat_str_app (parts1 parts2 : list string) :
  concat_str (parts1 ++ parts2) = concat_str parts1 +:+ concat_str parts2.
Proof.
  induction parts1 as [|p parts1 IH]; [done|].
  change (p +:+ concat_str (parts1 ++ parts2)
          = (p +:+ concat_str parts1) +:+ concat_str parts2).
  by rewrite IH, append_assoc.
Qed.

Lemma substring_of_concat_str {A} (f : A → string) (x : A) (l : list A) :
  x ∈ l → substring_of (f x) (concat_str (map f l)).
Proof.
  intros Hx. apply list_elem_of_split in Hx as (l1 & l2 & ->).
  rewrite map_app, concat_str_app. apply substring_of_append_r.
  change (substring_of (f x) (f x +:+ concat_str (map f l2))).
  apply substring_of_append_l, substring_of_refl.
Qed.

(** The export, cut at its three lists. *)
Lemma transcript_to_markdown_split (date : string) (transcript : list Msg)
    (topic : string) (report : SummaryReport) (sentiment : SentimentAnalysis) :
  transcript_to_markdown date transcript topic report sentiment
  = ("# Interview Transcript: " +:+ topic +:+ nl +:+ nl
     +:+ "**Date:** " +:+ date +:+ nl +:+ nl
     +:+ "**Decision: " +:+ go_or_no_go report +:+ "**" +:+ nl +:+ nl
     +:+ "## Market Perspective" +:+ nl +:+ nl
     +:+ market_perspective report +:+ nl +:+ nl
     +:+ "## Key Rationale" +:+ nl +:+ nl)
    +:+ concat_str (map (λ point, "- " +:+ point +:+ nl) (rationale report))
    +:+ (nl +:+ "## Persona Sentiments" +:+ nl +:+ nl)
    +:+ concat_str (map markdown_sentiment (sa_personas sentiment))
    +:+ ("## Full Transcript" +:+ nl +:+ nl)
    +:+ concat_str (map markdown_line transcript).
Proof. unfold transcript_to_markdown. by rewrite !append_assoc. Qed.

(** X13: Both documents grow with the transcript: the records added to a
    transcript add their lines at the end of the analysis document and of
    the export, and change nothing that was there. *)
Theorem transcript_documents_append (date topic : string)
    (transcript added : list Msg) (report : SummaryReport)
    (sentiment : SentimentAnalysis) :
  transcript_to_markdown date (transcript ++ added) topic report sentiment
  = transcript_to_markdown date transcript topic report sentiment
    +:+ concat_str (map markdown_line added)
  ∧ ∃ text,
      transcript_to_string_message topic transcript
      = [system_msg ("Analyze this interview transcript about: " +:+ topic);
         user_msg text]
      ∧ transcript_to_string_message topic (transcript ++ added)
        = [system_msg ("Analyze this interview transcript about: " +:+ topic);
           user_msg (text +:+ concat_str (map transcript_line added))].
Proof.
  split.
  - rewrite !transcript_to_markdown_split, map_app, concat_str_app.
    by rewrite !append_assoc.
  - eexists. split; [reflexivity|].
    unfold transcript_to_string_message.
    rewrite map_app, concat_str_app. by rewrite !append_assoc.
Qed.

(** An answer recorded under an empty name is left out of the export,
    though the analysis document has it as ["Assistant"]. *)
Lemma unnamed_answer_lines (text : string) :
  markdown_line (answer_record EmptyString text) = EmptyString
  ∧ transcript_line (answer_record EmptyString text)
    = "Assistant: " +:+ text +:+ nl +:+ nl.
Proof. done. Qed.

(** X14: The export of one round.  With a roster whose names are not empty,
    as the loader guarantees, a round is exported in full: the question
    under the facilitator's heading and one paragraph per answer under the
    persona's name. *)
Theorem export_of_round (personas : list Persona) (question : string)
    (answers : list string) :
  Forall (λ p, p_name p ≠ EmptyString) personas →
  concat_str (map markdown_line (round_records personas question answers))
  = "**Facilitator:** " +:+ question +:+ nl +:+ nl
    +:+ concat_str
          (zip_with (λ p text, "**" +:+ p_name p +:+ ":** " +:+ text
                               +:+ nl +:+ nl)
             personas answers).
Proof.
  intros Hnames. unfold round_records. simpl.
  change (markdown_line (question_record question))
    with ("**Facilitator:** " +:+ question +:+ nl +:+ nl).
  rewrite !append_assoc. do 4 f_equal.
  unfold round_answers. revert answers.
  induction Hnames as [|p ps Hp _ IH]; intros [|text answers]; try done.
  simpl. rewrite IH. f_equal.
  unfold markdown_line, answer_record, truthy. simpl.
  by rewrite bool_decide_eq_false_2.
Qed.

Lemma export_of_round_witness :
  Forall (λ p, p_name p ≠ EmptyString) [alice; bob]
  ∧ concat_str (map markdown_line (round_records [alice; bob] "Q1" ["a"; "b"]))
    = "**Facilitator:** Q1" +:+ nl +:+ nl
      +:+ "**Alice:** a" +:+ nl +:+ nl +:+ "**Bob:** b" +:+ nl +:+ nl.
Proof.
  assert (Forall (λ p, p_name p ≠ EmptyString) [alice; bob]) as H
    by (repeat constructor; discriminate).
  split; [exact H|].
  exact (export_of_round [alice; bob] "Q1" ["a"; "b"] H).
Defined.

(** ** The file of an interview *)

Section FileNameFacts.

Context {U : Unicode}.

Local Arguments Nat.leb : simpl never.
Local Arguments Nat.ltb : simpl never.

Lemma split_chars_shape (s : string) :
  all_chars (λ b, 128 <=? Ascii.nat_of_ascii b) (split_chars s).1 = true
  ∧ Forall char_shape (split_chars s).2.
Proof.
  induction s as [|c s [IHpending IHdone]]; [done|]. cbn [split_chars].
  destruct (split_chars s) as [pending done] eqn:Hsplit. simpl in *.
  unfold is_continuation, is_lead.
  destruct (128 <=? Ascii.nat_of_ascii c) eqn:Hlow; simpl.
  - destruct (Ascii.nat_of_ascii c <? 192) eqn:Hhigh; simpl.
    + by rewrite Hlow.
    + apply Nat.ltb_ge in Hhigh. rewrite (proj2 (Nat.leb_le _ _) Hhigh).
      simpl. split; [done|]. constructor; [|done]. right. simpl.
      by rewrite Hlow.
  - apply Nat.leb_gt in Hlow.
    rewrite (proj2 (Nat.leb_gt 192 _)) by lia. simpl. split; [done|].
    constructor; [left; exists c; split; [done|lia]|].
    destruct pending as [|b pending]; [done|]. simpl.
    constructor; [|done]. by right.
Qed.

Lemma chars_shape (s : string) : Forall char_shape (chars s).
Proof.
  unfold chars. pose proof (split_chars_shape s) as [Hpending Hdone].
  destruct (split_chars s) as [pending done]. simpl in *.
  destruct pending as [|b pending]; [done|]. simpl.
  constructor; [|done]. by right.
Qed.

Lemma all_chars_impl (test1 test2 : ascii → bool) (s : string) :
  (∀ b, test1 b = true → test2 b = true) →
  all_chars test1 s = true → all_chars test2 s = true.
Proof.
  intros Himpl. induction s as [|c s IH]; [done|]. simpl.
  intros [Hc Hs]%andb_true_iff. by rewrite (Himpl c Hc), IH.
Qed.

Lemma all_chars_append (test : ascii → bool) (s1 s2 : string) :
  all_chars test s1 = true → all_chars test s2 = true →
  all_chars test (s1 +:+ s2) = true.
Proof.
  intros H1 H2. induction s1 as [|c s1 IH]; [done|].
  change (test c && all_chars test (s1 +:+ s2) = true).
  simpl in H1. apply andb_true_iff in H1 as [Hc H1]. by rewrite Hc, IH.
Qed.

(** The bytes of a character that the substitution keeps. *)
Lemma kept_bytes (c : string) :
  char_shape c → kept c = true →
  all_chars (λ b, file_name_char b || Ascii.eqb b " ") c = true.
Proof.
  intros [(b & -> & Hb)|Hhigh] Hkept.
  - unfold kept, is_word, is_space, ascii_of, str1 in Hkept.
    rewrite (proj2 (Nat.ltb_lt _ _) Hb) in Hkept. simpl.
    rewrite andb_true_r. unfold file_name_char.
    destruct (ascii_word b); [by rewrite orb_true_r|].
    destruct (Ascii.eqb_spec b "-") as [->|Hhyphen]; [done|].
    destruct (Ascii.eqb_spec b " ") as [->|Hblank]; [done|].
    destruct (ascii_space b); [by rewrite !orb_true_r|].
    simpl in Hkept. apply bool_decide_eq_true in Hkept.
    injection Hkept as ->. done.
  - revert Hhigh. apply all_chars_impl. intros b Hb.
    unfold file_name_char. by rewrite Hb.
Qed.

Lemma all_chars_concat_str (test : ascii → bool) (cs : list string) :
  Forall (λ c, all_chars test c = true) cs →
  all_chars test (concat_str cs) = true.
Proof.
  induction 1 as [|c cs Hc _ IH]; [done|].
  by apply all_chars_append.
Qed.

Lemma Forall_lstrip (P : string → Prop) (cs : list string) :
  Forall P cs → Forall P (lstrip cs).
Proof.
  induction 1 as [|c cs Hc Hcs IH]; [done|]. simpl.
  destruct (is_space c); [done|]. by constructor.
Qed.

Lemma Forall_rstrip (P : string → Prop) (cs : list string) :
  Forall P cs → Forall P (rstrip cs).
Proof.
  induction 1 as [|c cs Hc Hcs IH]; [done|]. simpl.
  destruct (rstrip cs) as [|d r].
  - destruct (is_space c); [done|]. by constructor.
  - by constructor.
Qed.

Lemma all_chars_spaces_to_hyphens (s : string) :
  all_chars (λ b, file_name_char b || Ascii.eqb b " ") s = true →
  all_chars file_name_char (spaces_to_hyphens s) = true.
Proof.
  induction s as [|c s IH]; [done|]. simpl.
  intros [Hc Hs]%andb_true_iff. rewrite (IH Hs), andb_true_r.
  destruct (Ascii.eqb c " ") eqn:Hsp; [done|].
  by rewrite orb_false_r in Hc.
Qed.

Lemma all_chars_has_char (test : ascii → bool) (c : ascii) (s : string) :
  all_chars test s = true → test c = false → has_char c s = false.
Proof.
  intros Hs Hc. induction s as [|d s IH]; [done|]. simpl in *.
  apply andb_true_iff in Hs as [Hd Hs]. rewrite (IH Hs), orb_false_r.
  destruct (Ascii.eqb_spec c d) as [->|]; [congruence|done].
Qed.

(** X15: The file name of an interview is made of what the substitution
    keeps, the space excepted: the characters outside ASCII that the
    tables take for a letter, a digit or a blank, the ASCII letters and
    digits, the underscore, the hyphen and the ASCII blanks other than the
    space.  Whatever the topic and whatever the tables, it has no path
    separator, no dot and no space, so the file is written in the output
    directory itself. *)
Theorem safe_topic_characters (topic : string) :
  all_chars file_name_char (safe_topic topic) = true
  ∧ has_char "/" (safe_topic topic) = false
  ∧ has_char backslash (safe_topic topic) = false
  ∧ has_char "." (safe_topic topic) = false
  ∧ has_char " " (safe_topic topic) = false.
Proof.
  assert (all_chars file_name_char (safe_topic topic) = true) as Hall.
  { unfold safe_topic. apply all_chars_spaces_to_hyphens.
    apply all_chars_concat_str, Forall_rstrip, Forall_lstrip.
    unfold remove_unsafe. apply Forall_forall. intros c Hc.
    apply list_elem_of_In, filter_In in Hc as [Hc Hkept].
    apply kept_bytes; [|done].
    pose proof (chars_shape topic) as Hshape. rewrite Forall_forall in Hshape.
    apply Hshape. by apply list_elem_of_In. }
  split; [done|].
  repeat split; by apply (all_chars_has_char file_name_char).
Qed.

End FileNameFacts.

(** X17: Two interviews that are written to the same file: after the second
    has returned, the file holds the export of the second, and the export
    of the first is gone. *)
Theorem same_file_is_overwritten {E} {U : Unicode} (env : Env E)
    (topic1 topic2 : string) (personas1 personas2 : list Persona)
    (core1 core2 : list string) (max1 max2 : Z) (fuel1 fuel2 : nat)
    (w w1 w2 : World) (result1 result2 : InterviewResult) :
  run_interview env topic1 personas1 core1 max1 fuel1 w = Ok result1 w1 →
  run_interview env topic2 personas2 core2 max2 fuel2 w1 = Ok result2 w2 →
  res_transcript_file result1 = res_transcript_file result2 →
  report_on_disk (files w1) result1
  ∧ ∃ date transcript,
      files w2 !! res_transcript_file result1
      = Some (transcript_to_markdown date transcript (res_topic result2)
                (res_report result2) (res_sentiment result2)).
Proof.
  intros Hrun1 Hrun2 Hsame.
  apply run_interview_Ok in Hrun1 as (rounds1 & _ & date1 & _ & _ & _ & Hfiles1).
  apply run_interview_Ok in Hrun2 as (rounds2 & _ & date2 & _ & _ & _ & Hfiles2).
  split.
  - eexists _, _. rewrite Hfiles1. by rewrite lookup_insert_eq.
  - eexists _, _. rewrite Hfiles2, Hsame. by rewrite lookup_insert_eq.
Qed.

Section FileRuns.

Local Existing Instance letters_only.

Lemma same_file_is_overwritten_witness :
  run_interview env_ends "A!" [alice] ["Q1"] 2 5 empty_world
  = Ok (mkInterviewResult "A!" scripted_report bob_only
          (transcript_path "20250101" "A"))
       (mkWorld 3
          (<[transcript_path "20250101" "A" :=
               transcript_to_markdown "2025-01-01" [] "A!" scripted_report
                 bob_only]> ∅))
  ∧ ∃ date transcript,
      (<[transcript_path "20250101" "A" :=
           transcript_to_markdown "2025-01-01" [] "A?" scripted_report
             bob_only]>
         (<[transcript_path "20250101" "A" :=
              transcript_to_markdown "2025-01-01" [] "A!" scripted_report
                bob_only]> (∅ : gmap string string)))
      !! transcript_path "20250101" "A"
      = Some (transcript_to_markdown date transcript "A?" scripted_report
                bob_only).
Proof.
  pose (r1 := mkInterviewResult "A!" scripted_report bob_only
                (transcript_path "20250101" "A")).
  pose (r2 := mkInterviewResult "A?" scripted_report bob_only
                (transcript_path "20250101" "A")).
  pose (fs1 := <[transcript_path "20250101" "A" :=
                   transcript_to_markdown "2025-01-01" [] "A!" scripted_report
                     bob_only]> (∅ : gmap string string)).
  pose (fs2 := <[transcript_path "20250101" "A" :=
                   transcript_to_markdown "2025-01-01" [] "A?" scripted_report
                     bob_only]> fs1).
  assert (run_interview env_ends "A!" [alice] ["Q1"] 2 5 empty_world
          = Ok r1 (mkWorld 3 fs1)) as H1 by (vm_compute; reflexivity).
  assert (run_interview env_ends "A?" [alice] ["Q1"] 2 5 (mkWorld 3 fs1)
          = Ok r2 (mkWorld 6 fs2)) as H2 by (vm_compute; reflexivity).
  assert (res_transcript_file r1 = res_transcript_file r2) as H3
    by reflexivity.
  split; [exact H1|].
  exact (proj2 (same_file_is_overwritten env_ends "A!" "A?" [alice] [alice]
                  ["Q1"] ["Q1"] 2 2 5 5 empty_world (mkWorld 3 fs1)
                  (mkWorld 6 fs2) r1 r2 H1 H2 H3)).
Defined.

End FileRuns.

(** ** The panel context of a persona agent *)




(** X19: A persona agent is never told of itself, nor of a panelist that has
    its name: taking such a panelist out of the roster leaves the panel
    context as it was. *)
Theorem panel_context_excludes_namesakes
    (before after : list Persona) (p q : Persona) :
  p_name q = p_name p →
  panel_context (before ++ q :: after) p = panel_context (before ++ after) p.
Proof.
  intros Hname. unfold panel_context.
  rewrite !filter_app, filter_cons. by rewrite decide_False by (by intros H).
Qed.

Lemma panel_context_excludes_namesakes_witness :
  p_name alice = p_name alice
  ∧ panel_context ([] ++ alice :: [bob]) alice
    = panel_context ([] ++ [bob]) alice.
Proof.
  assert (p_name alice = p_name alice) as H by reflexivity.
  split; [exact H|].
  exact (panel_context_excludes_namesakes [] [bob] alice alice H).
Defined.

(** ** The sentiment request, round by round *)









(** X21: Answers under a name that is not in the roster are not filed: the
    groups are those of the transcript without such an answer. *)
Theorem group_responses_ignores_strangers (personas : list Persona)
    (before after : list Msg) (name text : string) :
  name ∉ map p_name personas →
  group_responses (before ++ answer_record name text :: after) personas
  = group_responses (before ++ after) personas.
Proof.
  intros Hname. unfold group_responses. rewrite !foldl_app. simpl.
  destruct (foldl group_step (None, init_persona_responses personas) before)
    as [c d] eqn:Hbefore.
  assert (d.*1 = (init_persona_responses personas).*1) as Hkeys.
  { change d with (c, d).2. rewrite <- Hbefore.
    apply foldl_group_step_keys. }
  assert (dict_has name d = false) as Hhas.
  { unfold dict_has. apply bool_decide_eq_false_2. rewrite Hkeys.
    unfold init_persona_responses.
    destruct (init_keys_from [] personas) as (_ & Hin & _);
      [apply NoDup_nil_2|].
    rewrite Hin. simpl. rewrite elem_of_nil. tauto. }
  unfold group_step at 2. unfold answer_record, get_is. simpl.
  by rewrite Hhas.
Qed.

Lemma group_responses_ignores_strangers_witness :
  ("Carol" ∉ map p_name [alice; bob])
  ∧ group_responses
      (transcript round_one ++ answer_record "Carol" "hello" :: []) [alice; bob]
    = group_responses (transcript round_one ++ []) [alice; bob].
Proof.
  assert ("Carol" ∉ map p_name [alice; bob]) as H.
  { apply (bool_decide_eq_false_1 _). vm_compute. reflexivity. }
  split; [exact H|].
  exact (group_responses_ignores_strangers [alice; bob] (transcript round_one)
           [] "Carol" "hello" H).
Defined.

(** ** Batches that complete *)

Section BatchResults.

Context {E : Type} {U : Unicode} (env : Env E).
Variables (fuel : nat) (personas : list Persona) (max_followups : Z).

Lemma batch_loop_results size i features results w :
  batch_loop env fuel size i features personas max_followups results w
  = match
      batch_loop env fuel size i features personas max_followups [] w
    with
    | Ok new w' => Ok (results ++ new) w'
    | Raised e w' => Raised e w'
    | OutOfFuel => OutOfFuel
    end.
Proof.
  revert i results w.
  induction features as [|feature features IH]; intros i results w.
  { simpl. unfold ret. by rewrite app_nil_r. }
  simpl. unfold bind.
  destruct (console_out env _ w) as [u w0|e w0|]; [|done..].
  destruct (run_interview _ _ _ _ _ _ w0) as [result w1|e w1|]; [|done..].
  destruct ((if bool_decide (i < size) then console_out env BatchSeparator
             else ret ()) w1) as [u' w2|e w2|]; [|done..].
  rewrite IH, (IH _ ([] ++ [result])).
  destruct (batch_loop env fuel size (S i) features personas max_followups []
              w2); [|done..].
  by rewrite <- app_assoc.
Qed.

(** X22: The loop of a batch is its parts run one after the other: the loop
    over two lists of features put together is the loop over the first
    list, then the loop over the second, numbered on from the first, from
    the world the first has left, and its results are those of the first
    followed by those of the second.  It stops where the first part
    stops. *)
Theorem batch_loop_in_parts (size i : nat)
    (features1 features2 : list Feature) (w : World) :
  batch_loop env fuel size i (features1 ++ features2) personas max_followups
    [] w
  = match
      batch_loop env fuel size i features1 personas max_followups [] w
    with
    | Ok results1 w1 =>
      match
        batch_loop env fuel size (i + length features1) features2 personas
          max_followups [] w1
      with
      | Ok results2 w2 => Ok (results1 ++ results2) w2
      | Raised e w2 => Raised e w2
      | OutOfFuel => OutOfFuel
      end
    | Raised e w1 => Raised e w1
    | OutOfFuel => OutOfFuel
    end.
Proof.
  rewrite batch_loop_app. unfold bind.
  destruct (batch_loop env fuel size i features1 personas max_followups [] w)
    as [results1 w1|e w1|]; [|done..].
  apply batch_loop_results.
Qed.

(** X23: A batch that returns gives one result per feature, in the order of
    the features and each under the topic of its feature; the reports are
    on disk, provided no two of them were written to the same path. *)
Theorem run_batch_interviews_results (features : list Feature) (w : World)
    (results : list InterviewResult) (w' : World) :
  run_batch_interviews env fuel features personas max_followups w
  = Ok results w' →
  Forall2 (λ feature result, res_topic result = f_topic feature)
    features results
  ∧ (NoDup (map res_transcript_file results) →
     Forall (report_on_disk (files w')) results).
Proof.
  intros Hrun%run_batch_interviews_Ok. split.
  - by apply batch_loop_Ok in Hrun as (new & -> & Hnew).
  - intros Hnodup. by eapply batch_loop_on_disk; [exact Hrun|..].
Qed.

End BatchResults.

Section BatchRuns.

Local Existing Instance letters_only.

Lemma run_batch_interviews_results_witness :
  run_batch_interviews env_ends 5
    [mkFeature "T1" ["Q1"]; mkFeature "T2" ["Q2"]] [alice] 2 empty_world
  = Ok [mkInterviewResult "T1" scripted_report bob_only
          (transcript_path "20250101" "T1");
        mkInterviewResult "T2" scripted_report bob_only
          (transcript_path "20250101" "T2")]
       (mkWorld 6
          (<[transcript_path "20250101" "T2" :=
               transcript_to_markdown "2025-01-01" [] "T2" scripted_report
                 bob_only]>
             (<[transcript_path "20250101" "T1" :=
                  transcript_to_markdown "2025-01-01" [] "T1" scripted_report
                    bob_only]> ∅)))
  ∧ Forall2 (λ feature result, res_topic result = f_topic feature)
      [mkFeature "T1" ["Q1"]; mkFeature "T2" ["Q2"]]
      [mkInterviewResult "T1" scripted_report bob_only
         (transcript_path "20250101" "T1");
       mkInterviewResult "T2" scripted_report bob_only
         (transcript_path "20250101" "T2")].
Proof.
  pose (results :=
          [mkInterviewResult "T1" scripted_report bob_only
             (transcript_path "20250101" "T1");
           mkInterviewResult "T2" scripted_report bob_only
             (transcript_path "20250101" "T2")]).
  pose (w' := mkWorld 6
                (<[transcript_path "20250101" "T2" :=
                     transcript_to_markdown "2025-01-01" [] "T2"
                       scripted_report bob_only]>
                   (<[transcript_path "20250101" "T1" :=
                        transcript_to_markdown "2025-01-01" [] "T1"
                          scripted_report bob_only]>
                      (∅ : gmap string string)))).
  assert (run_batch_interviews env_ends 5
            [mkFeature "T1" ["Q1"]; mkFeature "T2" ["Q2"]] [alice] 2
            empty_world = Ok results w') as H by (vm_compute; reflexivity).
  split; [exact H|].
  exact (proj1 (run_batch_interviews_results env_ends 5 [alice] 2
                  [mkFeature "T1" ["Q1"]; mkFeature "T2" ["Q2"]] empty_world
                  results w' H)).
Defined.

End BatchRuns.

(** ** What an interview leaves on disk *)

(** X24: An interview touches at most one file, the transcript file of its
    topic.  When it returns, that file is the export of its final
    transcript with the report and the sentiment analysis it returns, at
    the path it returns, which is the sanitised topic and the date inside
    the output directory; every other file is as it was.  When it raises,
    every file at another path than a transcript file of its topic is as
    it was; the transcript file itself may have been written, since the
    executive summary is printed after the file is saved. *)
Theorem run_interview_writes_one_file {E} {U : Unicode} (env : Env E)
    (topic : string) (personas : list Persona) (core_questions : list string)
    (max_followups : Z) (fuel : nat) (w : World) :
  match
    run_interview env topic personas core_questions max_followups fuel w
  with
  | Ok result w' =>
    ∃ rounds w1,
      interview_rounds env topic personas core_questions max_followups fuel w
      = Ok rounds w1
      ∧ res_topic result = topic
      ∧ res_transcript_file result
        = "interview_transcripts/" +:+ safe_topic topic +:+ "-"
          +:+ strftime env "%Y%m%d" (calls w') +:+ ".md"
      ∧ files w'
        = <[res_transcript_file result :=
              transcript_to_markdown (strftime env "%Y-%m-%d" (calls w'))
                (transcript (final_state initial_state rounds)) topic
                (res_report result) (res_sentiment result)]> (files w)
  | Raised _ w' =>
    ∀ path,
      (∀ date_str,
         path ≠ "interview_transcripts/" +:+ safe_topic topic +:+ "-"
                +:+ date_str +:+ ".md") →
      files w' !! path = files w !! path
  | OutOfFuel => True
  end.
Proof.
  destruct (run_interview env topic personas core_questions max_followups
              fuel w) as [result w'|e w'|] eqn:Hrun; [| |done].
  - unfold run_interview in Hrun.
    apply bind_Ok_inv in Hrun as (rounds & w1 & Hloop & Hrun).
    exists rounds, w1. split; [done|].
    pose proof (interview_rounds_from _ _ _ _ _ _ _ _ _ Hloop) as [_ Hsame].
    apply final_analysis_Ok in Hrun
      as (_ & _ & Htopic & Hpath & Hcalls & Hfiles).
    split; [done|]. rewrite Hcalls, Hfiles, Hsame, Htopic. split; [|done].
    rewrite Hpath. reflexivity.
  - intros path Hpath.
    apply (run_interview_Raised _ _ _ _ _ _ _ _ _ Hrun path).
    intros date_str. apply Hpath.
Qed.

